(** * nihstro: bit-field views and shader-binary layout records

    A shallow embedding of [include/nihstro/bit_field.h] and of the accessor
    helpers of [include/nihstro/shader_binary.h], with the properties the
    specification states about them.

    Integer values are mathematical integers ([Z]) that lie in the range of
    their C++ type; every operator is written with the conversions the
    language performs around it (integral promotion of the operands, the
    usual arithmetic conversions, conversion of the result on assignment,
    cast or return).  The platform is the one the library is built for:
    two's complement, 8-bit bytes, a 32-bit [int].  Shifts and conversions
    are those of C++20, which are what the compilers of the library
    computed before the standard fixed them: a conversion to an integer
    type wraps modulo [2 ^ width], a left shift is a multiplication modulo
    [2 ^ width], a right shift of a signed value is arithmetic. *)

From Stdlib Require Import ZArith Lia Bool String List Btauto.
From stdpp Require Import base gmap.

Local Open Scope Z_scope.

(** ** C++ integer types and operators *)

Module CInt.

(** An integer type is known by its width and its signedness. *)
Record itype : Type := IType { width : Z; signed : bool }.

Definition uint8_t  := IType 8 false.
Definition uint16_t := IType 16 false.
Definition uint32_t := IType 32 false.
Definition uint64_t := IType 64 false.
Definition int8_t   := IType 8 true.
Definition int16_t  := IType 16 true.
Definition int32_t  := IType 32 true.
Definition int64_t  := IType 64 true.

(** [int] on every platform the library targets. *)
Definition int := int32_t.

(** The fixed-width types of <cstdint>. *)
Definition fixed_width (t : itype) : bool :=
  (width t =? 8) || (width t =? 16) || (width t =? 32) || (width t =? 64).

Definition sizeof (t : itype) : Z := width t / 8.

Definition min_value (t : itype) : Z :=
  if signed t then - 2 ^ (width t - 1) else 0.

Definition max_value (t : itype) : Z :=
  if signed t then 2 ^ (width t - 1) - 1 else 2 ^ width t - 1.

Definition in_range (t : itype) (x : Z) : Prop :=
  min_value t <= x <= max_value t.

(** Conversion to [t]: the unique value of [t] congruent to [x] modulo
    [2 ^ width t]. *)
Definition convert (t : itype) (x : Z) : Z :=
  if signed t
  then (x + 2 ^ (width t - 1)) mod 2 ^ width t - 2 ^ (width t - 1)
  else x mod 2 ^ width t.

(** [std::make_unsigned]. *)
Definition make_unsigned (t : itype) : itype := IType (width t) false.

(** Integral promotion: a type narrower than [int] becomes [int], which
    represents all of its values. *)
Definition promote (t : itype) : itype :=
  if width t <? width int then int else t.

(** Usual arithmetic conversions of two promoted operand types. *)
Definition common (a b : itype) : itype :=
  let a' := promote a in
  let b' := promote b in
  if Bool.eqb (signed a') (signed b')
  then (if width a' <? width b' then b' else a')
  else
    let u := if signed a' then b' else a' in
    let s := if signed a' then a' else b' in
    if width s <=? width u then u else s.

(** A typed value: the static type of an expression and its value. *)
Record cval : Type := CV { ty : itype; val : Z }.

(** [(t)e] and every implicit conversion to [t]. *)
Definition cast (t : itype) (e : cval) : cval := CV t (convert t (val e)).

(** [~e]: the operand is promoted, the result has the promoted type. *)
Definition bnot (e : cval) : cval :=
  let t := promote (ty e) in CV t (convert t (Z.lnot (val e))).

(** [a & b] and [a | b]: both operands are brought to the common type. *)
Definition band (a b : cval) : cval :=
  let t := common (ty a) (ty b) in
  CV t (Z.land (convert t (val a)) (convert t (val b))).

Definition bor (a b : cval) : cval :=
  let t := common (ty a) (ty b) in
  CV t (Z.lor (convert t (val a)) (convert t (val b))).

(** [e << n]: the result has the promoted type of the left operand and is
    the value congruent to [e * 2 ^ n] modulo [2 ^ width].  The count is a
    [std::size_t]; the static assertions of [BitField] keep every count
    the class uses below the width of the promoted operand. *)
Definition shl (e : cval) (n : Z) : cval :=
  let t := promote (ty e) in CV t (convert t (Z.shiftl (val e) n)).

(** [e >> n]: [e / 2 ^ n] rounded towards negative infinity, that is a
    logical shift of an unsigned operand and an arithmetic shift of a
    signed one. *)
Definition shr (e : cval) (n : Z) : cval :=
  let t := promote (ty e) in CV t (Z.shiftr (val e) n).

(** [a - b], [a < b] and [a >= b] in the common type of the operands. *)
Definition sub (a b : cval) : cval :=
  let t := common (ty a) (ty b) in
  CV t (convert t (convert t (val a) - convert t (val b))).

Definition lt (a b : cval) : bool :=
  let t := common (ty a) (ty b) in
  convert t (val a) <? convert t (val b).

Definition ge (a b : cval) : bool :=
  let t := common (ty a) (ty b) in
  convert t (val b) <=? convert t (val a).

(** Contextual conversion to [bool], as in [if (e)]. *)
Definition nonzero (e : cval) : bool := negb (val e =? 0).

End CInt.

(** ** [bit_field.h] *)

Module BitField.
Import CInt.

(** The value type [T] of a field: an integer type, or an enumeration with
    the given underlying type. *)
Record vtype : Type := VType { underlying : itype; is_enum : bool }.

Definition integer (t : itype) : vtype := VType t false.
Definition enumeration (t : itype) : vtype := VType t true.

(** [std::numeric_limits<T>::is_signed].  [numeric_limits] is specialised
    for the arithmetic types only: for an enumeration the primary template
    answers, and its [is_signed] is [false]. *)
Definition numeric_limits_is_signed (T : vtype) : bool :=
  if is_enum T then false else signed (underlying T).

(** The template parameters of [BitField<position, bits, T>]. *)
Record params : Type := BF { position : Z; bits : Z; T : vtype }.

(** [StorageType] is [T], or the underlying type of [T] if [T] is an
    enumeration; [StorageTypeU] is its unsigned version. *)
Definition StorageType (f : params) : itype := underlying (T f).
Definition StorageTypeU (f : params) : itype := make_unsigned (StorageType f).

(** [8 * sizeof(T)]. *)
Definition bitsize (f : params) : Z := 8 * sizeof (StorageType f).

(** The instantiations that compile: [T] is, or is an enumeration over, one
    of the fixed-width integer types, [position] and [bits] are
    [std::size_t], hence not negative, and the static assertions of the
    class hold. *)
Definition valid (f : params) : bool :=
  fixed_width (StorageType f)
  && (0 <=? position f)
  && (bits f + position f <=? bitsize f)
  && (position f <? bitsize f)
  && (bits f <=? bitsize f)
  && (0 <? bits f).

(** [GetMask()]. *)
Definition GetMask (f : params) : cval :=
  cast (StorageType f)
    (shl (shr (bnot (cast (StorageTypeU f) (CV int 0)))
              (bitsize f - bits f))
         (position f)).

(** [Assign(value)]: the new content of [storage]. *)
Definition Assign (f : params) (storage value : Z) : Z :=
  let s := CV (StorageType f) storage in
  let v := cast (StorageType f) (CV (StorageType f) value) in
  val (cast (StorageType f)
         (bor (band s (bnot (GetMask f)))
              (band (shl v (position f)) (GetMask f)))).

(** [Value()]. *)
Definition Value (f : params) (storage : Z) : Z :=
  let s := CV (StorageType f) storage in
  if numeric_limits_is_signed (T f)
  then
    let shift := bitsize f - bits f in
    val (cast (StorageType f)
           (shr (shl (band s (GetMask f)) (shift - position f)) shift))
  else
    val (cast (StorageType f) (shr (band s (GetMask f)) (position f))).

(** [NumBits()]. *)
Definition NumBits (f : params) : Z := bits f.

(** *** Vocabulary of the specification *)

(** The bits of the field: [position <= i < position + bits]. *)
Definition in_field (f : params) (i : Z) : bool :=
  (position f <=? i) && (i <? position f + bits f).

(** The value types whose signedness [Value] sees: the integer types and
    the enumerations with an unsigned underlying type. *)
Definition sign_known (T : vtype) : bool :=
  Bool.eqb (numeric_limits_is_signed T) (signed (underlying T)).

(** The type of a [bits]-bit field of [T]'s signedness: its values are the
    values representable in [bits] bits. *)
Definition field_type (f : params) : itype :=
  IType (bits f) (signed (StorageType f)).

(** Two views of one word whose bit ranges are disjoint. *)
Definition disjoint (f g : params) : bool :=
  (position f + bits f <=? position g) || (position g + bits g <=? position f).

(** The reading of a signed field in the words of the specification: the
    field is extracted as an unsigned number, shifted left until its most
    significant bit is the sign bit of the storage type, and shifted right
    arithmetically by the same amount. *)
Definition sign_extended_field (f : params) (storage : Z) : Z :=
  let field := Z.land (Z.shiftr storage (position f)) (Z.ones (bits f)) in
  let amount := bitsize f - bits f in
  Z.shiftr (convert (IType (bitsize f) true) (Z.shiftl field amount)) amount.

(** The mask in the words of the specification: the word of the unsigned
    storage type with exactly the [bits] bits from [position] on set. *)
Definition field_mask (f : params) : Z :=
  Z.shiftl (Z.ones (bits f)) (position f).

End BitField.

(** [BitFlag<position, T>]: a [BitField<position, 1, T>] that acts like a
    boolean. *)
Module BitFlag.
Import CInt BitField.

Definition ParentType (position : Z) (T : vtype) : params := BF position 1 T.

(** [Assign(bool value)]: the flag is converted to [T], [true] to 1. *)
Definition Assign (position : Z) (T : vtype) (storage : Z) (value : bool) : Z :=
  BitField.Assign (ParentType position T) storage (if value then 1 else 0).

(** [Value()]: [ParentType::Value() != 0]. *)
Definition Value (position : Z) (T : vtype) (storage : Z) : bool :=
  negb (BitField.Value (ParentType position T) storage =? 0).

End BitFlag.

(** ** [shader_binary.h] *)

(** *** The three headers *)

Module Headers.
Import CInt.

(** A structure is the list of its data members, in declaration order. *)
Definition struct : Type := list (string * itype).

(** [sizeof] under [#pragma pack(1)]: the members follow each other without
    padding. *)
Definition sizeof_packed (s : struct) : Z :=
  fold_right (fun m acc => sizeof (snd m) + acc) 0 s.

Definition DVLB_MAGIC_WORD : Z := 0x424C5644.
Definition DVLP_MAGIC_WORD : Z := 0x504C5644.
Definition DVLE_MAGIC_WORD : Z := 0x454c5644.

Definition DVLBHeader : struct :=
  [ ("magic_word", uint32_t);
    ("num_programs", uint32_t) ]%string.

Definition DVLPHeader : struct :=
  [ ("magic_word", uint32_t);
    ("version", uint32_t);
    ("binary_offset", uint32_t);
    ("binary_size_words", uint32_t);
    ("swizzle_info_offset", uint32_t);
    ("swizzle_info_num_entries", uint32_t);
    ("filename_symbol_offset", uint32_t) ]%string.

(** [ShaderType] is an enumeration over [uint8_t]. *)
Definition DVLEHeader : struct :=
  [ ("magic_word", uint32_t);
    ("pad1", uint16_t);
    ("type", uint8_t);
    ("pad2", uint8_t);
    ("main_offset_words", uint32_t);
    ("endmain_offset_words", uint32_t);
    ("pad3", uint32_t);
    ("pad4", uint32_t);
    ("constant_table_offset", uint32_t);
    ("constant_table_size", uint32_t);
    ("label_table_offset", uint32_t);
    ("label_table_size", uint32_t);
    ("output_register_table_offset", uint32_t);
    ("output_register_table_size", uint32_t);
    ("uniform_table_offset", uint32_t);
    ("uniform_table_size", uint32_t);
    ("symbol_table_offset", uint32_t);
    ("symbol_table_size", uint32_t) ]%string.

End Headers.

(** *** [union OutputRegisterInfo] *)

Module OutputRegisterInfo.
Import CInt BitField.

(** [enum class Type : uint64_t]. *)
Definition POSITION   : Z := 0.
Definition QUATERNION : Z := 1.
Definition COLOR      : Z := 2.
Definition TEXCOORD0  : Z := 3.
Definition TEXCOORD0W : Z := 4.
Definition TEXCOORD1  : Z := 5.
Definition TEXCOORD2  : Z := 6.
Definition VIEW       : Z := 8.

(** The members of the union: five views of one 64-bit word. *)
Definition hex            : params := BF 0 64 (integer uint64_t).
Definition type           : params := BF 0 16 (enumeration uint64_t).
Definition id             : params := BF 16 16 (integer uint64_t).
Definition component_mask : params := BF 32 4 (integer uint64_t).
Definition descriptor     : params := BF 32 32 (integer uint64_t).

(** The union is the storage word its members share. *)
Record t : Type := Word { storage : Z }.

(** [member.Assign(value)] and [member.Value()] on the shared word. *)
Definition assign (m : params) (value : Z) (r : t) : t :=
  Word (Assign m (storage r) value).

Definition value (m : params) (r : t) : Z := Value m (storage r).

(** The constructor, run on whatever the memory holds. *)
Definition construct (memory : Z) : t :=
  assign descriptor 0
    (assign component_mask 0
       (assign id 0
          (assign type POSITION
             (assign hex 0 (Word memory))))).

(** The states of an entry: the constructed one, every word a binary is
    read into, and what assignments to the members make of them. *)
Inductive reachable : t -> Prop :=
| reach_construct (memory : Z) :
    in_range uint64_t memory -> reachable (construct memory)
| reach_load (w : Z) :
    in_range uint64_t w -> reachable (Word w)
| reach_assign (m : params) (v : Z) (r : t) :
    In m [hex; type; id; component_mask; descriptor] ->
    in_range uint64_t v -> reachable r -> reachable (assign m v r).

(** [GetMask()]. *)
Definition GetMask (r : t) : string :=
  let mask := CV uint64_t (value component_mask r) in
  let ret := EmptyString in
  let ret := if nonzero (band mask (CV int 1)) then (ret ++ "x")%string else ret in
  let ret := if nonzero (band mask (CV int 2)) then (ret ++ "y")%string else ret in
  let ret := if nonzero (band mask (CV int 4)) then (ret ++ "z")%string else ret in
  let ret := if nonzero (band mask (CV int 8)) then (ret ++ "w")%string else ret in
  ret.

(** The table of [GetSemanticName()]. *)
Definition semantic_names : gmap Z string :=
  list_to_map
    [ (POSITION,   "out.pos");
      (QUATERNION, "out.quat");
      (COLOR,      "out.col");
      (TEXCOORD0,  "out.tex0");
      (TEXCOORD0W, "out.texw");
      (TEXCOORD1,  "out.tex1");
      (TEXCOORD2,  "out.tex2");
      (VIEW,       "out.view") ]%string.

(** [GetSemanticName()]. *)
Definition GetSemanticName (r : t) : string :=
  match semantic_names !! value type r with
  | Some name => name
  | None => "out.unk"%string
  end.

(** The tags in the words of the specification: one for each of the eight
    named values, the generic one for every other value. *)
Definition semantic_tag (k : Z) : string :=
  if k =? 0 then "out.pos"
  else if k =? 1 then "out.quat"
  else if k =? 2 then "out.col"
  else if k =? 3 then "out.tex0"
  else if k =? 4 then "out.texw"
  else if k =? 5 then "out.tex1"
  else if k =? 6 then "out.tex2"
  else if k =? 8 then "out.view"
  else "out.unk".

(** The letters of a mask in the words of the specification: those of the
    set bits, in the order x, y, z, w. *)
Definition mask_letters (m : Z) : string :=
  ((if Z.testbit m 0 then "x" else "") ++
   (if Z.testbit m 1 then "y" else "") ++
   (if Z.testbit m 2 then "z" else "") ++
   (if Z.testbit m 3 then "w" else ""))%string.

End OutputRegisterInfo.

(** *** [struct UniformInfo::Basic] *)

Module UniformInfo.
Import CInt BitField.

(** Modelled from the spec: the enumeration [RegisterType] is declared in
    [shader_bytecode.h], which is not among the sources at hand; these are
    the five classes the specification names and the classifier returns. *)
Inductive RegisterType : Type :=
| Input | FloatUniform | IntUniform | BoolUniform | Unknown.

(** [GetType(reg)], [reg] a [uint32_t]. *)
Definition GetType (reg : Z) : RegisterType :=
  let r := CV uint32_t reg in
  if lt r (CV int 0x10) then Input
  else if lt r (CV int 0x70) then FloatUniform
  else if lt r (CV int 0x74) then IntUniform
  else if ge r (CV int 0x78) && lt r (CV int 0x88) then BoolUniform
  else Unknown.

(** [GetIndex(reg)]: an [int]. *)
Definition GetIndex (reg : Z) : Z :=
  let r := CV uint32_t reg in
  match GetType reg with
  | Input => val (cast int r)
  | FloatUniform => val (cast int (sub r (CV int 0x10)))
  | IntUniform => val (cast int (sub r (CV int 0x70)))
  | BoolUniform => val (cast int (sub r (CV int 0x78)))
  | Unknown => -1
  end.

(** [reg_start] and [reg_end] are members of a structure: each has a
    storage word of its own. *)
Definition reg_start : params := BF 0 16 (integer uint32_t).
Definition reg_end   : params := BF 16 16 (integer uint32_t).

Record Basic : Type :=
  { symbol_offset : Z; reg_start_storage : Z; reg_end_storage : Z }.

Definition GetStartType (b : Basic) : RegisterType :=
  GetType (Value reg_start (reg_start_storage b)).
Definition GetEndType (b : Basic) : RegisterType :=
  GetType (Value reg_end (reg_end_storage b)).
Definition GetStartIndex (b : Basic) : Z :=
  GetIndex (Value reg_start (reg_start_storage b)).
Definition GetEndIndex (b : Basic) : Z :=
  GetIndex (Value reg_end (reg_end_storage b)).

(** [Initialize()]. *)
Definition Initialize (b : Basic) : Basic :=
  {| symbol_offset := 0;
     reg_start_storage := Assign reg_start (reg_start_storage b) 0;
     reg_end_storage := Assign reg_end (reg_end_storage b) 0 |}.

End UniformInfo.

(** *** The table entries *)

(** [struct ConstantInfo]: two anonymous unions, the first word with its
    two fields and the four value words.  The byte members [i.x] to [i.w]
    of the second union depend on the byte order of the host and are left
    out. *)
Module ConstantInfo.
Import CInt BitField.

(** [enum class Type : uint32_t]. *)
Definition Bool  : Z := 0.
Definition Int   : Z := 1.
Definition Float : Z := 2.

(** The views of the first word. *)
Definition type  : params := BF 0 2 (enumeration uint32_t).
Definition regid : params := BF 16 8 (integer uint32_t).

(** The flag [b], a view of [value_hex[0]]. *)
Definition b : params := BF 0 1 (integer uint32_t).

Record t : Type := Make { full_first_word : Z; value_hex : list Z }.

(** The constructor. *)
Definition construct : t := Make 0 [0; 0; 0; 0].

(** Assignment to a view of the first word, and its value. *)
Definition assign_first (m : params) (v : Z) (c : t) : t :=
  Make (Assign m (full_first_word c) v) (value_hex c).

Definition value_first (m : params) (c : t) : Z :=
  Value m (full_first_word c).

(** [b.Assign(v)] and [b.Value()], on the word [value_hex[0]]; [f.x] is
    that word too. *)
Definition assign_b (v : Z) (c : t) : t :=
  match value_hex c with
  | w0 :: rest => Make (full_first_word c) (Assign b w0 v :: rest)
  | [] => c
  end.

Definition value_b (c : t) : Z := Value b (nth 0 (value_hex c) 0).

Definition f_x (c : t) : Z := nth 0 (value_hex c) 0.

End ConstantInfo.

(** The layout of the records under [#pragma pack(1)]. *)
Module Layout.
Import CInt.

#[warnings="-register-all"]
Inductive layout : Type :=
| Scalar (t : itype)
| Array (n : nat) (l : layout)
| Struct (members : list layout)
| Union (members : list layout).

(** [sizeof]: members of a structure follow each other without padding,
    members of a union share their first byte. *)
Fixpoint size (l : layout) : Z :=
  match l with
  | Scalar t => sizeof t
  | Array n l => Z.of_nat n * size l
  | Struct ms => fold_right (fun m acc => size m + acc) 0 ms
  | Union ms => fold_right (fun m acc => Z.max (size m) acc) 0 ms
  end.

(** A [BitField<position, bits, T>] holds its storage word and nothing
    else. *)
Definition bit_field (f : BitField.params) : layout :=
  Scalar (BitField.StorageType f).

Definition ConstantInfo_layout : layout :=
  Struct
    [ Union [ Scalar uint32_t;
              bit_field ConstantInfo.type;
              bit_field ConstantInfo.regid ];
      Union [ Array 4 (Scalar uint32_t);
              bit_field ConstantInfo.b;
              Struct [ Scalar uint8_t; Scalar uint8_t;
                       Scalar uint8_t; Scalar uint8_t ];
              Struct [ Scalar uint32_t; Scalar uint32_t;
                       Scalar uint32_t; Scalar uint32_t ] ] ].

Definition LabelInfo_layout : layout :=
  Struct
    [ bit_field (BitField.BF 0 8 (BitField.integer uint32_t));
      Scalar uint32_t; Scalar uint32_t; Scalar uint32_t ].

Definition OutputRegisterInfo_layout : layout :=
  Union
    [ bit_field OutputRegisterInfo.hex;
      bit_field OutputRegisterInfo.type;
      bit_field OutputRegisterInfo.id;
      bit_field OutputRegisterInfo.component_mask;
      bit_field OutputRegisterInfo.descriptor ].

(** [UniformInfo::Basic]: [symbol_offset] and the structure [regs] of the
    two register fields. *)
Definition RegisterFields_layout : layout :=
  Struct [ bit_field UniformInfo.reg_start; bit_field UniformInfo.reg_end ].

Definition UniformInfoBasic_layout : layout :=
  Struct [ Scalar uint32_t; RegisterFields_layout ].


(** The offsets of the members of a structure, in declaration order. *)
Fixpoint offsets_from (start : Z) (ms : list layout) : list Z :=
  match ms with
  | [] => []
  | m :: rest => start :: offsets_from (start + size m) rest
  end.


(** The bytes of a 32-bit word, least significant first, as characters. *)
Definition tag_of (w : Z) : string :=
  let byte (k : Z) := Ascii.ascii_of_N (Z.to_N ((w / 2 ^ (8 * k)) mod 256)) in
  String (byte 0) (String (byte 1) (String (byte 2) (String (byte 3) EmptyString))).

End Layout.

(** ** Bit-level facts about the integer model *)

Module CIntFacts.
Import CInt.

Lemma testbit_nonneg_high (a l i : Z) :
  0 <= a < 2 ^ l -> 0 <= l <= i -> Z.testbit a i = false.
Proof.
  intros Ha Hi.
  rewrite <- (Z.mod_small a (2 ^ l)) by assumption.
  apply Z.mod_pow2_bits_high; lia.
Qed.

Lemma testbit_neg_high (a l i : Z) :
  - 2 ^ l <= a < 0 -> 0 <= l <= i -> Z.testbit a i = true.
Proof.
  intros Ha Hi.
  rewrite <- (Z.lnot_involutive a), Z.lnot_spec by lia.
  rewrite (testbit_nonneg_high (Z.lnot a) l i); [reflexivity | | lia].
  unfold Z.lnot. lia.
Qed.

(** The sign bit of a value that fits [l + 1] bits. *)
Lemma testbit_sign (a l : Z) :
  0 <= l -> - 2 ^ l <= a < 2 ^ l -> Z.testbit a l = (a <? 0).
Proof.
  intros Hl Ha. destruct (Z.ltb_spec a 0).
  - apply (testbit_neg_high a l l); lia.
  - apply (testbit_nonneg_high a l l); lia.
Qed.

Lemma convert_unsigned_range (t : itype) (x : Z) :
  signed t = false -> 0 <= width t -> 0 <= convert t x < 2 ^ width t.
Proof.
  intros Hs Hw. unfold convert. rewrite Hs.
  apply Z.mod_pos_bound. apply Z.pow_pos_nonneg; lia.
Qed.

Lemma pow2_double (w : Z) : 0 < w -> 2 ^ w = 2 * 2 ^ (w - 1).
Proof.
  intros Hw. replace w with (Z.succ (w - 1)) at 1 by lia.
  apply Z.pow_succ_r. lia.
Qed.

Lemma convert_signed_range (t : itype) (x : Z) :
  signed t = true -> 0 < width t ->
  - 2 ^ (width t - 1) <= convert t x < 2 ^ (width t - 1).
Proof.
  intros Hs Hw. unfold convert. rewrite Hs.
  pose proof (pow2_double (width t) Hw) as Hd.
  assert (0 < 2 ^ (width t - 1)) by (apply Z.pow_pos_nonneg; lia).
  pose proof (Z.mod_pos_bound (x + 2 ^ (width t - 1)) (2 ^ width t)).
  lia.
Qed.

Lemma convert_in_range (t : itype) (x : Z) :
  0 < width t -> in_range t (convert t x).
Proof.
  intros Hw. unfold in_range, min_value, max_value.
  destruct (signed t) eqn:Hs.
  - pose proof (convert_signed_range t x Hs Hw). lia.
  - pose proof (convert_unsigned_range t x Hs). lia.
Qed.

(** Conversion leaves a value of the type alone. *)
Lemma convert_id (t : itype) (x : Z) :
  0 < width t -> in_range t x -> convert t x = x.
Proof.
  unfold in_range, min_value, max_value, convert. intros Hw Hx.
  destruct (signed t).
  - pose proof (pow2_double (width t) Hw).
    rewrite Z.mod_small; lia.
  - rewrite Z.mod_small; lia.
Qed.

(** The bits of a converted value: the low [width t] bits are those of the
    operand, the bits above repeat the sign bit (signed) or are clear
    (unsigned). *)
Lemma testbit_convert (t : itype) (x i : Z) :
  0 < width t -> 0 <= i ->
  Z.testbit (convert t x) i =
  if i <? width t then Z.testbit x i
  else signed t && Z.testbit x (width t - 1).
Proof.
  intros Hw Hi.
  assert (Hlow : forall j, 0 <= j < width t ->
                           Z.testbit (convert t x) j = Z.testbit x j).
  { intros j Hj. unfold convert. destruct (signed t).
    - rewrite <- (Z.mod_pow2_bits_low _ (width t) j) by lia.
      rewrite <- (Z.mod_pow2_bits_low x (width t) j) by lia.
      f_equal.
      rewrite Zminus_mod_idemp_l. f_equal. lia.
    - apply Z.mod_pow2_bits_low. lia. }
  destruct (Z.ltb_spec i (width t)) as [Hlt | Hge].
  - apply Hlow. lia.
  - destruct (signed t) eqn:Hs; simpl.
    + rewrite <- (Hlow (width t - 1)) by lia.
      pose proof (convert_signed_range t x Hs Hw) as Hr.
      rewrite (testbit_sign _ (width t - 1)) by lia.
      destruct (Z.ltb_spec (convert t x) 0).
      * apply (testbit_neg_high _ (width t - 1)); lia.
      * apply (testbit_nonneg_high _ (width t - 1)); lia.
    + pose proof (convert_unsigned_range t x Hs) as Hr.
      apply (testbit_nonneg_high _ (width t)); lia.
Qed.

(** A value of the type has the bits [testbit_convert] describes. *)
Lemma testbit_in_range (t : itype) (x i : Z) :
  0 < width t -> in_range t x -> 0 <= i ->
  Z.testbit x i =
  if i <? width t then Z.testbit x i
  else signed t && Z.testbit x (width t - 1).
Proof.
  intros Hw Hx Hi.
  rewrite <- (convert_id t x Hw Hx) at 1.
  apply testbit_convert; assumption.
Qed.

End CIntFacts.

(** ** Bit-level reasoning *)

Module Bits.
Import CInt CIntFacts.

Lemma testbit_convert' (t : itype) (x i : Z) :
  0 < width t ->
  Z.testbit (convert t x) i =
  if i <? width t then Z.testbit x i
  else signed t && Z.testbit x (width t - 1).
Proof.
  intros Hw. destruct (Z.ltb_spec i 0) as [Hneg | Hpos].
  - rewrite !(Z.testbit_neg_r _ i) by lia.
    destruct (Z.ltb_spec i (width t)); [reflexivity | lia].
  - apply testbit_convert; assumption.
Qed.

Lemma testbit_lnot' (a i : Z) :
  Z.testbit (Z.lnot a) i = (0 <=? i) && negb (Z.testbit a i).
Proof.
  destruct (Z.leb_spec 0 i).
  - rewrite Z.lnot_spec by lia. reflexivity.
  - rewrite Z.testbit_neg_r by lia. reflexivity.
Qed.

Lemma testbit_shiftl' (a n i : Z) :
  0 <= n -> Z.testbit (Z.shiftl a n) i = Z.testbit a (i - n).
Proof.
  intros Hn. destruct (Z.leb_spec 0 i).
  - apply Z.shiftl_spec. lia.
  - rewrite !Z.testbit_neg_r by lia. reflexivity.
Qed.

Lemma testbit_shiftr' (a n i : Z) :
  Z.testbit (Z.shiftr a n) i = (0 <=? i) && Z.testbit a (i + n).
Proof.
  destruct (Z.leb_spec 0 i).
  - rewrite Z.shiftr_spec by lia. reflexivity.
  - rewrite Z.testbit_neg_r by lia. reflexivity.
Qed.

Lemma testbit_ones' (n i : Z) :
  0 <= n -> Z.testbit (Z.ones n) i = (0 <=? i) && (i <? n).
Proof.
  intros Hn. destruct (Z.leb_spec 0 i).
  - rewrite Z.testbit_ones_nonneg by lia. reflexivity.
  - rewrite Z.testbit_neg_r by lia. reflexivity.
Qed.

(** Two values of a type are equal when their low [width t] bits are. *)
Lemma in_range_bits_eq (t : itype) (a b : Z) :
  0 < width t -> in_range t a -> in_range t b ->
  (forall i, 0 <= i < width t -> Z.testbit a i = Z.testbit b i) ->
  a = b.
Proof.
  intros Hw Ha Hb Hbits.
  rewrite <- (convert_id t a Hw Ha), <- (convert_id t b Hw Hb).
  apply Z.bits_inj'. intros i Hi.
  rewrite !testbit_convert' by assumption.
  destruct (Z.ltb_spec i (width t)).
  - apply Hbits. lia.
  - rewrite (Hbits (width t - 1)) by lia. reflexivity.
Qed.

(** Conversion depends on the low [width t] bits of its operand only. *)
Lemma convert_ext (t : itype) (a b : Z) :
  0 < width t ->
  (forall i, 0 <= i < width t -> Z.testbit a i = Z.testbit b i) ->
  convert t a = convert t b.
Proof.
  intros Hw Hbits.
  apply (in_range_bits_eq t); try (apply convert_in_range; assumption);
    try assumption.
  intros i Hi. rewrite !testbit_convert' by assumption.
  destruct (Z.ltb_spec i (width t)); [apply Hbits; lia | lia].
Qed.

Ltac rewrite_bits :=
  repeat first
    [ rewrite testbit_convert' by (cbn [width]; lia)
    | rewrite Z.land_spec
    | rewrite Z.lor_spec
    | rewrite testbit_lnot'
    | rewrite testbit_shiftl' by lia
    | rewrite testbit_shiftr'
    | rewrite testbit_ones' by lia
    | rewrite Z.testbit_0_l ];
  cbn [width signed ty val andb orb negb].

Ltac split_tests :=
  repeat match goal with
         | |- context [?a <? ?b] => destruct (Z.ltb_spec a b)
         | |- context [?a <=? ?b] => destruct (Z.leb_spec a b)
         end.

(** Bring syntactically different but equal bit indices together and
    discard the bits at negative indices. *)
Ltac merge_indices :=
  repeat match goal with
         | |- context [Z.testbit ?x ?i] =>
             rewrite (Z.testbit_neg_r x i) by lia
         | |- context [Z.testbit ?x ?i] =>
             match goal with
             | |- context [Z.testbit x ?j] =>
                 tryif constr_eq i j then fail
                 else (replace i with j by lia)
             end
         end.

Ltac finish_bits :=
  simpl; try lia; try reflexivity; try btauto;
  repeat match goal with
         | |- context [Z.testbit ?x ?i] => destruct (Z.testbit x i)
         end;
  simpl; try reflexivity; try lia; try congruence.

Ltac bitblast := rewrite_bits; split_tests; merge_indices; finish_bits.

(** The same, with the bits of some sub-terms given by [tac]. *)
Ltac bitblast_with tac :=
  rewrite_bits; split_tests; tac;
  rewrite_bits; split_tests; merge_indices; finish_bits.

End Bits.

(** ** Properties of [BitField] *)

Module BitFieldFacts.
Import CInt CIntFacts Bits BitField.

(** What the static assertions give. *)
Lemma valid_inv (f : params) :
  valid f = true ->
  (width (StorageType f) = 8 \/ width (StorageType f) = 16 \/
   width (StorageType f) = 32 \/ width (StorageType f) = 64) /\
  bitsize f = width (StorageType f) /\
  0 <= position f /\ 0 < bits f /\
  bits f + position f <= width (StorageType f).
Proof.
  unfold valid, fixed_width, bitsize, sizeof. intros H.
  repeat (apply andb_prop in H; destruct H as [H ?]).
  assert (Hw : width (StorageType f) = 8 \/ width (StorageType f) = 16 \/
               width (StorageType f) = 32 \/ width (StorageType f) = 64).
  { repeat (apply orb_prop in H; destruct H as [H | H]); lia. }
  split; [exact Hw |].
  assert (8 * (width (StorageType f) / 8) = width (StorageType f)).
  { destruct Hw as [-> | [-> | [-> | ->]]]; reflexivity. }
  lia.
Qed.

Lemma promote_wide (t : itype) : 32 <= width t -> promote t = t.
Proof.
  intros H. unfold promote. simpl.
  destruct (Z.ltb_spec (width t) 32); [lia | reflexivity].
Qed.

Lemma promote_narrow (t : itype) : width t < 32 -> promote t = int.
Proof.
  intros H. unfold promote. simpl.
  destruct (Z.ltb_spec (width t) 32); [reflexivity | lia].
Qed.

Lemma common_same (t : itype) : common t t = promote t.
Proof.
  unfold common. rewrite eqb_reflx, Z.ltb_irrefl. reflexivity.
Qed.

Local Arguments convert : simpl never.
Local Arguments Z.mul : simpl never.
Local Arguments Z.div : simpl never.

(** Open the template parameters and the static assertions. *)
Ltac open_field f Hvalid :=
  let Hws := fresh "Hws" in
  let Hbs := fresh "Hbs" in
  let Hp := fresh "Hp" in
  let Hb := fresh "Hb" in
  let Hpb := fresh "Hpb" in
  destruct (valid_inv f Hvalid) as (Hws & Hbs & Hp & Hb & Hpb);
  clear Hvalid;
  destruct f as [p b [[w sg] en]];
  unfold StorageType in *; cbn [T underlying position bits width signed] in *.

(** *** Storage types at least as wide as [int]: no operand is promoted *)

Lemma GetMask_wide_bits (f : params) (i : Z) :
  valid f = true -> 32 <= width (StorageType f) ->
  0 <= i < width (StorageType f) ->
  Z.testbit (val (GetMask f)) i = in_field f i.
Proof.
  intros Hvalid Hwide Hi. open_field f Hvalid.
  unfold GetMask, in_field, cast, shl, shr, bnot, StorageTypeU, StorageType.
  cbn [T underlying position bits ty val]. rewrite Hbs.
  rewrite !(promote_wide (make_unsigned _)) by exact Hwide.
  unfold make_unsigned. cbn [width signed val ty].
  bitblast.
Qed.

Lemma GetMask_in_range (f : params) :
  valid f = true -> in_range (StorageType f) (val (GetMask f)).
Proof.
  intros Hvalid. destruct (valid_inv f Hvalid) as (Hws & _).
  unfold GetMask, cast. cbn [val]. apply convert_in_range. lia.
Qed.

(** [Assign] writes the low [bits] bits of the value into the field and
    keeps every other bit of the storage word. *)
Lemma Assign_wide_bits (f : params) (s v i : Z) :
  valid f = true -> 32 <= width (StorageType f) ->
  0 <= i < width (StorageType f) ->
  Z.testbit (Assign f s v) i =
  if in_field f i then Z.testbit v (i - position f) else Z.testbit s i.
Proof.
  intros Hvalid Hwide Hi.
  pose proof (GetMask_wide_bits f) as HM.
  specialize (fun j => HM j Hvalid Hwide).
  unfold Assign. set (M := GetMask f) in *.
  assert (HMty : ty M = StorageType f) by reflexivity.
  clearbody M. destruct M as [tM m]. cbn [ty val] in *. subst tM.
  open_field f Hvalid. unfold in_field in *.
  cbn [T underlying position bits ty val] in *.
  unfold cast, bor, band, shl, bnot. cbn [ty val].
  repeat (rewrite ?common_same, ?(promote_wide (IType w sg) Hwide);
          cbn [ty val]).
  bitblast_with ltac:(rewrite ?HM by lia).
Qed.

(** [Value] reads the field: the [bits] bits from [position] on, zero- or
    sign-extended as the storage type is unsigned or signed. *)
Lemma Value_wide (f : params) (s : Z) :
  valid f = true -> 32 <= width (StorageType f) ->
  sign_known (T f) = true ->
  Value f s = convert (field_type f) (Z.shiftr s (position f)).
Proof.
  intros Hvalid Hwide Hsign.
  pose proof (GetMask_wide_bits f) as HM.
  specialize (fun j => HM j Hvalid Hwide).
  apply eqb_prop in Hsign.
  unfold Value, field_type. rewrite Hsign. set (M := GetMask f) in *.
  assert (HMty : ty M = StorageType f) by reflexivity.
  clearbody M. destruct M as [tM m]. cbn [ty val] in *. subst tM.
  open_field f Hvalid. unfold in_field in *.
  cbn [T underlying position bits ty val] in *. rewrite Hbs. clear Hsign.
  apply Z.bits_inj'. intros i Hi.
  destruct sg.
  - unfold cast, band, shl, shr. cbn [ty val].
    repeat (rewrite ?common_same, ?(promote_wide (IType w true) Hwide);
            cbn [ty val]).
    bitblast_with ltac:(rewrite ?HM by lia).
  - unfold cast, band, shl, shr. cbn [ty val].
    repeat (rewrite ?common_same, ?(promote_wide (IType w false) Hwide);
            cbn [ty val]).
    bitblast_with ltac:(rewrite ?HM by lia).
Qed.

(** *** Storage types narrower than [int]: the arithmetic is done in [int] *)

Lemma common_narrow (a b : itype) :
  promote a = int -> promote b = int -> common a b = int.
Proof. unfold common. intros -> ->. reflexivity. Qed.

Lemma promote_int : promote int = int.
Proof. reflexivity. Qed.

(** In a narrow storage type the mask covers every bit from [position]
    up: [~(StorageTypeU)0] is the [int] -1, which the right shift leaves
    as it is. *)
Lemma GetMask_narrow_bits (f : params) (i : Z) :
  valid f = true -> width (StorageType f) < 32 -> 0 <= i ->
  Z.testbit (val (GetMask f)) i =
  if i <? width (StorageType f) then position f <=? i
  else signed (StorageType f).
Proof.
  intros Hvalid Hnarrow Hi. open_field f Hvalid.
  unfold GetMask, cast, shl, shr, bnot, StorageTypeU, StorageType.
  cbn [T underlying position bits ty val]. rewrite Hbs.
  unfold make_unsigned. cbn [width signed val ty].
  repeat (rewrite ?(promote_narrow (IType w false) Hnarrow), ?promote_int;
          cbn [ty val]).
  unfold int, int32_t.
  bitblast.
Qed.

Ltac narrow_types w sg Hnarrow :=
  repeat (rewrite ?promote_int, ?(promote_narrow (IType w sg) Hnarrow),
            ?(common_narrow (IType w sg) int), ?(common_narrow int int),
            ?(common_narrow int (IType w sg)),
            ?(common_narrow (IType w sg) (IType w sg))
            by first [reflexivity | apply promote_narrow; exact Hnarrow];
          cbn [ty val]).

Lemma Assign_narrow_bits (f : params) (s v i : Z) :
  valid f = true -> width (StorageType f) < 32 ->
  0 <= i < width (StorageType f) ->
  Z.testbit (Assign f s v) i =
  if position f <=? i then Z.testbit v (i - position f) else Z.testbit s i.
Proof.
  intros Hvalid Hnarrow Hi.
  pose proof (GetMask_narrow_bits f) as HM.
  specialize (fun j => HM j Hvalid Hnarrow).
  unfold Assign. set (M := GetMask f) in *.
  assert (HMty : ty M = StorageType f) by reflexivity.
  clearbody M. destruct M as [tM m]. cbn [ty val] in *. subst tM.
  open_field f Hvalid.
  cbn [T underlying position bits ty val] in *.
  unfold cast, bor, band, shl, bnot. cbn [ty val].
  narrow_types w sg Hnarrow. unfold int, int32_t.
  bitblast_with ltac:(rewrite ?HM by lia).
Qed.

(** The bits of a storage word above the width of its type. *)
Lemma storage_high_bits (t : itype) (s : Z) :
  0 < width t -> in_range t s ->
  forall j, width t <= j ->
            Z.testbit s j = signed t && Z.testbit s (width t - 1).
Proof.
  intros Hw Hs j Hj.
  rewrite (testbit_in_range t s j Hw Hs) by lia.
  destruct (Z.ltb_spec j (width t)); [lia | reflexivity].
Qed.

Ltac use_bits H x :=
  repeat match goal with
         | |- context [Z.testbit x ?j] => rewrite (H j) by lia
         end.

(** In a narrow storage type [Value] returns the whole word shifted down
    by [position]: neither the mask nor the shifts, done in [int], cut
    the field off at [position + bits]. *)
Lemma Value_narrow (f : params) (s : Z) :
  valid f = true -> width (StorageType f) < 32 ->
  sign_known (T f) = true -> in_range (StorageType f) s ->
  Value f s = Z.shiftr s (position f).
Proof.
  intros Hvalid Hnarrow Hsign Hrange.
  pose proof (GetMask_narrow_bits f) as HM.
  specialize (fun j => HM j Hvalid Hnarrow).
  apply eqb_prop in Hsign.
  unfold Value. rewrite Hsign. set (M := GetMask f) in *.
  assert (HMty : ty M = StorageType f) by reflexivity.
  clearbody M. destruct M as [tM m]. cbn [ty val] in *. subst tM.
  assert (Hs := storage_high_bits (StorageType f) s).
  open_field f Hvalid.
  cbn [T underlying position bits ty val width signed] in *.
  specialize (Hs ltac:(lia) Hrange).
  rewrite Hbs. clear Hsign Hrange Hbs.
  (* the masked word, computed in [int] *)
  set (X := val (band (CV (IType w sg) s) (CV (IType w sg) m))).
  assert (HX : forall j, 0 <= j ->
               Z.testbit X j = (p <=? j) && Z.testbit s j).
  { intros j Hj. subst X. unfold band. cbn [ty val].
    narrow_types w sg Hnarrow. unfold int, int32_t.
    rewrite_bits. change (32 - 1) with 31. rewrite (HM 31), (HM j) by lia.
    destruct (Z.ltb_spec j 32), (Z.ltb_spec j w), (Z.ltb_spec 31 w),
      (Z.leb_spec p j); try lia;
      rewrite ?(Hs j), ?(Hs 31) by lia;
      destruct sg, (Z.testbit s (w - 1)); simpl;
      rewrite ?andb_true_r, ?andb_false_r; reflexivity. }
  assert (Hty : ty (band (CV (IType w sg) s) (CV (IType w sg) m)) = int).
  { unfold band. cbn [ty val]. narrow_types w sg Hnarrow. reflexivity. }
  unfold cast, shl, shr. rewrite !Hty. fold X. cbn [ty val].
  rewrite ?promote_int. cbn [ty val]. unfold int, int32_t.
  clearbody X. clear Hty HM m.
  apply Z.bits_inj'. intros i Hi.
  destruct sg.
  - rewrite_bits.
    destruct (Z.ltb_spec i w).
    + destruct (Z.ltb_spec (i + (w - b)) 32); [| lia].
      rewrite HX by lia. replace (i + (w - b) - (w - b - p)) with (i + p) by lia.
      destruct (Z.leb_spec 0 i), (Z.leb_spec p (i + p)); try lia.
      reflexivity.
    + destruct (Z.ltb_spec (w - 1 + (w - b)) 32); [| lia].
      rewrite HX by lia.
      replace (w - 1 + (w - b) - (w - b - p)) with (w - 1 + p) by lia.
      destruct (Z.leb_spec 0 (w - 1)), (Z.leb_spec 0 i),
        (Z.leb_spec p (w - 1 + p)); try lia.
      simpl. destruct (Z.eq_dec p 0) as [-> | Hne].
      * rewrite Z.add_0_r. rewrite (Hs (i + 0)) by lia. reflexivity.
      * rewrite (Hs (w - 1 + p)), (Hs (i + p)) by lia. reflexivity.
  - rewrite_bits.
    destruct (Z.ltb_spec i w).
    + destruct (Z.leb_spec 0 i); [| lia]. simpl. rewrite HX by lia.
      destruct (Z.leb_spec p (i + p)); [| lia]. reflexivity.
    + destruct (Z.leb_spec 0 i); [| lia]. simpl.
      rewrite (Hs (i + p)) by lia. reflexivity.
Qed.

(** *** Every storage type *)

Lemma Assign_in_range (f : params) (s v : Z) :
  valid f = true -> in_range (StorageType f) (Assign f s v).
Proof.
  intros Hvalid. destruct (valid_inv f Hvalid) as (Hws & _).
  unfold Assign, cast. cbn [val]. apply convert_in_range. lia.
Qed.

(** The values representable in [bits] bits are values of the storage
    type. *)
Lemma field_type_in_storage (f : params) (v : Z) :
  valid f = true -> in_range (field_type f) v -> in_range (StorageType f) v.
Proof.
  intros Hvalid. destruct (valid_inv f Hvalid) as (Hws & _ & Hp & Hb & Hpb).
  unfold in_range, min_value, max_value, field_type. cbn [width signed].
  destruct (signed (StorageType f)).
  - assert (2 ^ (bits f - 1) <= 2 ^ (width (StorageType f) - 1))
      by (apply Z.pow_le_mono_r; lia).
    lia.
  - assert (2 ^ bits f <= 2 ^ width (StorageType f))
      by (apply Z.pow_le_mono_r; lia).
    lia.
Qed.

(** Reading back what was assigned, for an integer type or an enumeration
    over an unsigned type, whatever the width of the storage type. *)
Theorem Assign_Value_roundtrip (f : params) (s v : Z) :
  valid f = true -> sign_known (T f) = true ->
  in_range (field_type f) v ->
  Value f (Assign f s v) = v.
Proof.
  intros Hvalid Hsign Hv.
  destruct (valid_inv f Hvalid) as (Hws & Hbs & Hp & Hb & Hpb).
  destruct (Z.le_gt_cases 32 (width (StorageType f))) as [Hwide | Hnarrow].
  - rewrite Value_wide by assumption.
    rewrite <- (convert_id (field_type f) v) at 2
      by (assumption || (unfold field_type; cbn [width]; lia)).
    apply convert_ext; [unfold field_type; cbn [width]; lia |].
    unfold field_type. cbn [width]. intros i Hi.
    rewrite testbit_shiftr', Assign_wide_bits by (assumption || lia).
    unfold in_field.
    destruct (Z.leb_spec 0 i), (Z.leb_spec (position f) (i + position f)),
      (Z.ltb_spec (i + position f) (position f + bits f)); try lia.
    simpl. f_equal. lia.
  - pose proof (Assign_in_range f s v Hvalid) as HA.
    rewrite Value_narrow by assumption.
    assert (HvH := storage_high_bits (field_type f) v).
    assert (HAH := storage_high_bits (StorageType f) (Assign f s v)).
    unfold field_type in HvH. cbn [width signed] in HvH.
    specialize (HvH ltac:(lia) Hv). specialize (HAH ltac:(lia) HA).
    apply Z.bits_inj'. intros i Hi. rewrite testbit_shiftr'.
    destruct (Z.leb_spec 0 i); [| lia]. simpl.
    destruct (Z.lt_ge_cases (i + position f) (width (StorageType f))).
    + rewrite Assign_narrow_bits by (assumption || lia).
      destruct (Z.leb_spec (position f) (i + position f)); [| lia].
      f_equal. lia.
    + rewrite HAH by lia.
      rewrite Assign_narrow_bits by (assumption || lia).
      destruct (Z.leb_spec (position f) (width (StorageType f) - 1)); [| lia].
      rewrite (HvH i) by lia.
      destruct (Z.eq_dec (width (StorageType f) - 1 - position f)
                  (bits f - 1)) as [-> | Hne]; [reflexivity |].
      rewrite (HvH (width (StorageType f) - 1 - position f)) by lia.
      destruct (signed (StorageType f)); reflexivity.
Qed.

(** A flag of an unsigned integer type reads as it was assigned. *)
Theorem BitFlag_roundtrip (position : Z) (T : vtype) (s : Z) (b : bool) :
  valid (BitFlag.ParentType position T) = true ->
  signed (underlying T) = false ->
  BitFlag.Value position T (BitFlag.Assign position T s b) = b.
Proof.
  intros Hvalid Hu. unfold BitFlag.Value, BitFlag.Assign.
  rewrite Assign_Value_roundtrip.
  - destruct b; reflexivity.
  - exact Hvalid.
  - unfold sign_known, numeric_limits_is_signed, BitFlag.ParentType.
    cbn [BitField.T]. rewrite Hu. destruct (is_enum T); reflexivity.
  - unfold in_range, min_value, max_value, field_type, StorageType,
      BitFlag.ParentType.
    cbn [BitField.T bits width signed]. rewrite Hu.
    destruct b; simpl; lia.
Qed.

(** *** Storage types at least as wide as [int]: frame and truncation *)

(** X25.  In a storage type at least as wide as [int], [Assign] keeps
    every bit of the word outside the field. *)
Theorem Assign_wide_frame (f : params) (s v i : Z) :
  valid f = true -> 32 <= width (StorageType f) ->
  0 <= i < width (StorageType f) -> in_field f i = false ->
  Z.testbit (Assign f s v) i = Z.testbit s i.
Proof.
  intros Hvalid Hwide Hi Hout.
  rewrite Assign_wide_bits, Hout by assumption. reflexivity.
Qed.


(** X27.  In a storage type at least as wide as [int], an unsigned field
    keeps the low [bits] bits of whatever is assigned: [Value()] returns
    the value modulo [2 ^ bits]. *)
Theorem Assign_Value_wide_truncates (f : params) (s v : Z) :
  valid f = true -> 32 <= width (StorageType f) ->
  signed (StorageType f) = false ->
  Value f (Assign f s v) = v mod 2 ^ bits f.
Proof.
  intros Hvalid Hwide Hu.
  destruct (valid_inv f Hvalid) as (Hws & Hbs & Hp & Hb & Hpb).
  assert (Hsign : sign_known (T f) = true).
  { unfold sign_known, numeric_limits_is_signed.
    unfold StorageType in Hu. rewrite Hu. destruct (is_enum (T f)); reflexivity. }
  rewrite Value_wide by assumption.
  transitivity (convert (field_type f) v).
  - apply convert_ext; unfold field_type; cbn [width]; [lia |].
    intros i Hi.
    rewrite testbit_shiftr', Assign_wide_bits by (assumption || lia).
    unfold in_field.
    destruct (Z.leb_spec 0 i), (Z.leb_spec (position f) (i + position f)),
      (Z.ltb_spec (i + position f) (position f + bits f)); try lia.
    simpl. f_equal. lia.
  - unfold convert, field_type. cbn [signed width]. rewrite Hu. reflexivity.
Qed.

(** X28.  The mask of a storage type at least as wide as [int], read as
    an unsigned word, has exactly the [bits] bits from [position] on. *)
Theorem GetMask_wide (f : params) :
  valid f = true -> 32 <= width (StorageType f) ->
  convert (StorageTypeU f) (val (GetMask f)) = field_mask f.
Proof.
  intros Hvalid Hwide.
  destruct (valid_inv f Hvalid) as (Hws & Hbs & Hp & Hb & Hpb).
  apply Z.bits_inj'. intros i Hi.
  unfold StorageTypeU, make_unsigned, field_mask.
  rewrite testbit_convert' by (cbn [width]; lia). cbn [width signed].
  rewrite testbit_shiftl', testbit_ones' by lia.
  destruct (Z.ltb_spec i (width (StorageType f))).
  - rewrite GetMask_wide_bits by (assumption || lia). unfold in_field.
    destruct (Z.leb_spec (position f) i), (Z.leb_spec 0 (i - position f)),
      (Z.ltb_spec i (position f + bits f)),
      (Z.ltb_spec (i - position f) (bits f)); simpl; lia || reflexivity.
  - destruct (Z.leb_spec 0 (i - position f)),
      (Z.ltb_spec (i - position f) (bits f)); simpl; lia || reflexivity.
Qed.

(** X29.  The mask of a storage type narrower than [int] has every bit
    from [position] up to the top of the word, whatever [bits] is. *)
Theorem GetMask_narrow (f : params) :
  valid f = true -> width (StorageType f) < 32 ->
  convert (StorageTypeU f) (val (GetMask f)) =
  2 ^ width (StorageType f) - 2 ^ position f.
Proof.
  intros Hvalid Hnarrow.
  destruct (valid_inv f Hvalid) as (Hws & Hbs & Hp & Hb & Hpb).
  assert (H2 : 2 ^ width (StorageType f) - 2 ^ position f =
               Z.shiftl (Z.ones (width (StorageType f) - position f))
                 (position f)).
  { rewrite Z.shiftl_mul_pow2, Z.ones_equiv by lia.
    rewrite <- Z.sub_1_r, Z.mul_sub_distr_r, <- Z.pow_add_r by lia.
    f_equal; [f_equal |]; lia. }
  rewrite H2. apply Z.bits_inj'. intros i Hi.
  unfold StorageTypeU, make_unsigned.
  rewrite testbit_convert' by (cbn [width]; lia). cbn [width signed].
  rewrite testbit_shiftl', testbit_ones' by lia.
  rewrite GetMask_narrow_bits by (assumption || lia).
  destruct (Z.ltb_spec i (width (StorageType f))),
    (Z.leb_spec (position f) i), (Z.leb_spec 0 (i - position f)),
    (Z.ltb_spec (i - position f) (width (StorageType f) - position f));
    simpl; lia || reflexivity.
Qed.

(** *** Signed fields *)

Lemma signed_value_type (f : params) :
  numeric_limits_is_signed (T f) = true ->
  signed (StorageType f) = true /\ sign_known (T f) = true.
Proof.
  unfold sign_known, numeric_limits_is_signed, StorageType.
  destruct (is_enum (T f)); [discriminate |].
  intros ->. split; reflexivity.
Qed.

Lemma most_negative_in_field (f : params) :
  valid f = true -> signed (StorageType f) = true ->
  in_range (field_type f) (- 2 ^ (bits f - 1)).
Proof.
  intros Hvalid Hs. destruct (valid_inv f Hvalid) as (_ & _ & _ & Hb & _).
  unfold in_range, min_value, max_value, field_type. cbn [width signed].
  rewrite Hs. assert (0 < 2 ^ (bits f - 1)) by (apply Z.pow_pos_nonneg; lia).
  lia.
Qed.

(** X30.  For a signed integer type at least as wide as [int], [Value()]
    sign-extends the field: it returns what the specification describes,
    the field read as a two's-complement number of [bits] bits, and the
    most negative value of the field, [- 2 ^ (bits - 1)], is read back as
    it was assigned. *)
Theorem Value_sign_extends (f : params) (s : Z) :
  valid f = true ->
  numeric_limits_is_signed (T f) = true ->
  32 <= width (StorageType f) ->
  Value f s = sign_extended_field f s /\
  Value f s = convert (IType (bits f) true) (Z.shiftr s (position f)) /\
  Value f (Assign f s (- 2 ^ (bits f - 1))) = - 2 ^ (bits f - 1).
Proof.
  intros Hvalid Hsigned Hwide.
  destruct (signed_value_type f Hsigned) as (Hs & Hknown).
  destruct (valid_inv f Hvalid) as (Hws & Hbs & Hp & Hb & Hpb).
  assert (Hv : Value f s =
               convert (IType (bits f) true) (Z.shiftr s (position f))).
  { rewrite Value_wide by assumption. unfold field_type. rewrite Hs.
    reflexivity. }
  repeat split.
  - rewrite Hv. unfold sign_extended_field. rewrite Hbs.
    apply Z.bits_inj'. intros i Hi.
    rewrite testbit_shiftr'.
    rewrite !testbit_convert' by (cbn [width]; lia). cbn [width signed].
    rewrite !testbit_shiftl' by lia.
    rewrite !Z.land_spec, !testbit_shiftr', !testbit_ones' by lia.
    destruct (Z.leb_spec 0 i); [| lia].
    destruct (Z.ltb_spec i (bits f)).
    + destruct (Z.ltb_spec (i + (width (StorageType f) - bits f))
                  (width (StorageType f))); [| lia].
      replace (i + (width (StorageType f) - bits f) -
               (width (StorageType f) - bits f)) with i by lia.
      destruct (Z.leb_spec 0 i), (Z.ltb_spec i (bits f)); try lia.
      simpl. rewrite andb_true_r. reflexivity.
    + destruct (Z.ltb_spec (i + (width (StorageType f) - bits f))
                  (width (StorageType f))); [lia |].
      replace (width (StorageType f) - 1 -
               (width (StorageType f) - bits f)) with (bits f - 1) by lia.
      destruct (Z.leb_spec 0 (bits f - 1)),
        (Z.ltb_spec (bits f - 1) (bits f)); try lia.
      simpl. rewrite andb_true_r. reflexivity.
  - exact Hv.
  - apply Assign_Value_roundtrip; try assumption.
    apply most_negative_in_field; assumption.
Qed.

(** *** What the code does where the specification fails *)

(** C1: an enumeration over a signed type.  [numeric_limits<T>::is_signed]
    is [false] for every enumeration, so [Value()] takes the unsigned path
    on a signed storage word.  In [BitField<28, 4, E>] with [E] over
    [int32_t], the value 8 is stored in the top four bits and read back as
    -8; in [BitField<0, 4, E>] the value -1 is read back as 15. *)
Theorem Assign_Value_signed_enum :
  let f := BF 28 4 (enumeration int32_t) in
  let g := BF 0 4 (enumeration int32_t) in
  valid f = true /\ valid g = true /\
  Assign f 0 8 = - 2 ^ 31 /\ Value f (Assign f 0 8) = -8 /\
  Assign g 0 (-1) = 15 /\ Value g (Assign g 0 (-1)) = 15.
Proof. vm_compute. repeat split. Qed.

(** C2: a storage type narrower than [int].  In [BitField<0, 4, uint8_t>]
    the mask is [0xFF], so [Assign(3)] on the word [0xA5] stores [0x03]:
    bits 4 to 7, outside the field, are cleared, and the disjoint view
    [BitField<4, 4, uint8_t>] of the same word, which read [0xA], reads
    0. *)
Theorem Assign_narrow_overwrites :
  let f := BF 0 4 (integer uint8_t) in
  let g := BF 4 4 (integer uint8_t) in
  valid f = true /\ valid g = true /\ disjoint f g = true /\
  in_field f 7 = false /\
  Z.testbit 0xA5 7 = true /\ Z.testbit (Assign f 0xA5 3) 7 = false /\
  Assign f 0xA5 3 = 0x03 /\
  Value g 0xA5 = 0xA /\ Value g (Assign f 0xA5 3) = 0.
Proof. vm_compute. repeat split. Qed.

(** C3: a signed storage type narrower than [int].  The mask and the
    shifts of [Value()] are computed in [int], so the left shift does not
    bring the most significant bit of the field to a sign bit and nothing
    is sign-extended at the field.  Take the views [BitField<0, 4, int8_t>]
    and [BitField<4, 4, int8_t>] of one byte: the first is assigned -1 and
    reads -1; the second is assigned 0, which leaves [0x0F] in the byte;
    the first now reads 15, where the sign extension of its four bits is
    -1. *)
Theorem Value_narrow_not_sign_extended :
  let a := BF 0 4 (integer int8_t) in
  let b := BF 4 4 (integer int8_t) in
  valid a = true /\ valid b = true /\ disjoint a b = true /\
  numeric_limits_is_signed (T a) = true /\
  Value a (Assign a 0 (-1)) = -1 /\
  Assign b (Assign a 0 (-1)) 0 = 0x0F /\
  Value a 0x0F = 15 /\ sign_extended_field a 0x0F = -1.
Proof. vm_compute. repeat split. Qed.

(** C4: a storage type narrower than [int].  [~(StorageTypeU)0] is
    computed after integral promotion, in [int], where it is -1; the right
    shift leaves -1, and the mask of [BitField<0, 4, uint8_t>] is [0xFF],
    not the four bits [0x0F] of the field. *)
Theorem GetMask_narrow_example :
  let f := BF 0 4 (integer uint8_t) in
  valid f = true /\
  val (bnot (cast (StorageTypeU f) (CV int 0))) = -1 /\
  ty (bnot (cast (StorageTypeU f) (CV int 0))) = int /\
  val (GetMask f) = 0xFF /\ field_mask f = 0x0F.
Proof. vm_compute. repeat split. Qed.

(** C10: a storage type narrower than [int].  [Assign(0xFF)] on
    [BitField<0, 4, uint8_t>] stores [0xFF], setting bits 4 to 7 of the
    word, and [Value()] returns [0xFF], not [0xFF mod 2 ^ 4 = 0x0F]. *)
Theorem Assign_Value_narrow_no_truncation :
  let f := BF 0 4 (integer uint8_t) in
  valid f = true /\ signed (StorageType f) = false /\
  Assign f 0 0xFF = 0xFF /\ Value f (Assign f 0 0xFF) = 0xFF /\
  0xFF mod 2 ^ bits f = 0x0F.
Proof. vm_compute. repeat split. Qed.

End BitFieldFacts.

(** ** Properties of the output-register entry *)

Module OutputRegisterInfoFacts.
Import CInt CIntFacts Bits BitField BitFieldFacts OutputRegisterInfo.

Lemma member_valid (m : params) :
  In m [hex; type; id; component_mask; descriptor] ->
  valid m = true /\ StorageType m = uint64_t /\ sign_known (T m) = true.
Proof.
  intros Hin. repeat (destruct Hin as [<- | Hin]; [repeat split |]).
  destruct Hin.
Qed.

(** The value of a member: its bits of the word, moved down. *)
Lemma value_bits (m : params) (r : t) (i : Z) :
  In m [hex; type; id; component_mask; descriptor] -> 0 <= i ->
  Z.testbit (value m r) i =
  (i <? bits m) && Z.testbit (storage r) (i + position m).
Proof.
  intros Hin Hi. destruct (member_valid m Hin) as (Hv & Hty & Hs).
  unfold value. rewrite Value_wide by (rewrite ?Hty; assumption || (simpl; lia)).
  unfold field_type. rewrite Hty.
  destruct (valid_inv m Hv) as (_ & _ & _ & Hb & _).
  rewrite testbit_convert' by (cbn [width]; lia). cbn [width signed].
  rewrite testbit_shiftr'.
  destruct (Z.ltb_spec i (bits m)), (Z.leb_spec 0 i); try lia; reflexivity.
Qed.

Lemma value_range (m : params) (r : t) :
  In m [hex; type; id; component_mask; descriptor] ->
  0 <= value m r < 2 ^ bits m.
Proof.
  intros Hin. destruct (member_valid m Hin) as (Hv & Hty & Hs).
  unfold value. rewrite Value_wide by (rewrite ?Hty; assumption || (simpl; lia)).
  destruct (valid_inv m Hv) as (_ & _ & _ & Hb & _).
  apply (convert_unsigned_range (field_type m)).
  - unfold field_type. rewrite Hty. reflexivity.
  - unfold field_type. cbn [width]. lia.
Qed.

(** The word after an assignment to a member. *)
Lemma assign_bits (m : params) (v : Z) (r : t) (i : Z) :
  In m [hex; type; id; component_mask; descriptor] -> 0 <= i < 64 ->
  Z.testbit (storage (assign m v r)) i =
  if in_field m i then Z.testbit v (i - position m)
  else Z.testbit (storage r) i.
Proof.
  intros Hin Hi. destruct (member_valid m Hin) as (Hv & Hty & Hs).
  unfold assign. cbn [storage].
  apply Assign_wide_bits; rewrite ?Hty; assumption || (simpl; lia).
Qed.

Lemma reachable_in_range (r : t) :
  reachable r -> in_range uint64_t (storage r).
Proof.
  intros H. destruct H as [memory Hm | w Hw | m v r Hin Hv Hr].
  - unfold construct, assign. cbn [storage].
    apply (Assign_in_range descriptor). reflexivity.
  - exact Hw.
  - destruct (member_valid m Hin) as (Hval & Hty & _).
    unfold assign. cbn [storage]. rewrite <- Hty.
    apply Assign_in_range. exact Hval.
Qed.

(** The constructor clears the word, whatever the memory held. *)
Lemma construct_zero (memory : Z) : construct memory = Word 0.
Proof.
  unfold construct, assign. cbn [storage]. f_equal.
  apply (in_range_bits_eq uint64_t).
  - reflexivity.
  - apply (Assign_in_range descriptor). reflexivity.
  - vm_compute. split; discriminate.
  - cbn [width uint64_t]. intros i Hi. rewrite Z.testbit_0_l.
    assert (Hw : 32 <= 64) by lia.
    rewrite (Assign_wide_bits descriptor) by (reflexivity || assumption).
    destruct (in_field descriptor i); [apply Z.testbit_0_l |].
    rewrite (Assign_wide_bits component_mask) by (reflexivity || assumption).
    destruct (in_field component_mask i); [apply Z.testbit_0_l |].
    rewrite (Assign_wide_bits id) by (reflexivity || assumption).
    destruct (in_field id i); [apply Z.testbit_0_l |].
    rewrite (Assign_wide_bits type) by (reflexivity || assumption).
    destruct (in_field type i); [apply Z.testbit_0_l |].
    rewrite (Assign_wide_bits hex) by (reflexivity || assumption).
    unfold in_field, hex. cbn [position bits].
    destruct (Z.leb_spec 0 i), (Z.ltb_spec i (0 + 64)); try lia.
    apply Z.testbit_0_l.
Qed.

(** C9.  In every reachable state of an output-register entry the
    component mask is the low four bits of the descriptor: the two members
    view the same bits of the word.  An assignment to the descriptor shows
    in the component mask, and an assignment to the component mask replaces
    the low four bits of the descriptor and nothing else of it. *)
Theorem descriptor_aliases_component_mask (r : t) :
  reachable r ->
  value component_mask r = Z.land (value descriptor r) 15 /\
  (forall d, in_range uint64_t d ->
     value component_mask (assign descriptor d r) = Z.land d 15) /\
  (forall m, in_range uint64_t m ->
     value descriptor (assign component_mask m r) =
     Z.lor (Z.ldiff (value descriptor r) 15) (Z.land m 15)).
Proof.
  intros Hr.
  assert (Hcm : In component_mask [hex; type; id; component_mask; descriptor])
    by (cbn [In]; tauto).
  assert (Hd : In descriptor [hex; type; id; component_mask; descriptor])
    by (cbn [In]; tauto).
  assert (H15 : forall i, 0 <= i -> Z.testbit 15 i = (i <? 4)).
  { intros i Hi. change 15 with (Z.ones 4).
    rewrite testbit_ones' by lia.
    destruct (Z.leb_spec 0 i); [reflexivity | lia]. }
  repeat split.
  - apply Z.bits_inj'. intros i Hi.
    rewrite Z.land_spec, !value_bits, H15 by assumption.
    cbn [bits position component_mask descriptor].
    destruct (Z.ltb_spec i 4), (Z.ltb_spec i 32); try lia;
      rewrite ?andb_true_r, ?andb_false_r; reflexivity.
  - intros d _. apply Z.bits_inj'. intros i Hi.
    rewrite Z.land_spec, value_bits, H15 by assumption.
    cbn [bits position component_mask].
    destruct (Z.ltb_spec i 4); [| rewrite andb_false_r; reflexivity].
    rewrite assign_bits by (assumption || lia).
    unfold in_field. cbn [bits position descriptor].
    destruct (Z.leb_spec 32 (i + 32)), (Z.ltb_spec (i + 32) (32 + 32));
      try lia.
    simpl. rewrite andb_true_r. f_equal. lia.
  - intros m _. apply Z.bits_inj'. intros i Hi.
    rewrite Z.lor_spec, Z.ldiff_spec, Z.land_spec, !value_bits, H15
      by assumption.
    cbn [bits position descriptor].
    destruct (Z.ltb_spec i 32).
    + rewrite assign_bits by (assumption || lia).
      unfold in_field. cbn [bits position component_mask].
      destruct (Z.leb_spec 32 (i + 32)), (Z.ltb_spec (i + 32) (32 + 4)),
        (Z.ltb_spec i 4); try lia; simpl.
      * rewrite andb_false_r, andb_true_r. simpl. f_equal. lia.
      * rewrite andb_true_r, andb_false_r, orb_false_r. reflexivity.
    + destruct (Z.ltb_spec i 4); [lia |].
      simpl. rewrite andb_false_r. reflexivity.
Qed.

Lemma descriptor_aliases_component_mask_witness :
  value component_mask (Word 0xABCD123400000000) = 0x4 /\
  value descriptor (Word 0xABCD123400000000) = 0xABCD1234 /\
  value component_mask (assign descriptor 0x5A (Word 0xABCD123400000000))
    = 0xA /\
  value descriptor (assign component_mask 0x9 (Word 0xABCD123400000000))
    = 0xABCD1239.
Proof.
  assert (Hr : reachable (Word 0xABCD123400000000)).
  { apply reach_load. vm_compute. split; discriminate. }
  destruct (descriptor_aliases_component_mask _ Hr) as (H1 & H2 & H3).
  assert (Hd : in_range uint64_t 0x5A) by (vm_compute; split; discriminate).
  assert (Hm : in_range uint64_t 0x9) by (vm_compute; split; discriminate).
  split; [| split; [| split]].
  - rewrite H1. vm_compute. reflexivity.
  - vm_compute. reflexivity.
  - rewrite (H2 _ Hd). reflexivity.
  - rewrite (H3 _ Hm). vm_compute. reflexivity.
Defined.

(** C7.  [GetMask()] returns the letters of the bits set in the four-bit
    component mask, bit 0 for x up to bit 3 for w, always in the order
    x, y, z, w: "yw" for [0b1010], "xyzw" for [0b1111] and the empty
    string for 0. *)
Theorem GetMask_letters (r : t) :
  0 <= value component_mask r < 16 /\
  GetMask r = mask_letters (value component_mask r) /\
  (value component_mask r = 10 -> GetMask r = "yw"%string) /\
  (value component_mask r = 15 -> GetMask r = "xyzw"%string) /\
  (value component_mask r = 0 -> GetMask r = EmptyString).
Proof.
  assert (Hm : 0 <= value component_mask r < 16).
  { apply (value_range component_mask r). cbn [In]. tauto. }
  assert (Hall : GetMask r = mask_letters (value component_mask r)).
  { unfold GetMask. generalize dependent (value component_mask r).
    intros m Hm.
    assert (Hcases : m = 0 \/ m = 1 \/ m = 2 \/ m = 3 \/ m = 4 \/ m = 5 \/
                     m = 6 \/ m = 7 \/ m = 8 \/ m = 9 \/ m = 10 \/ m = 11 \/
                     m = 12 \/ m = 13 \/ m = 14 \/ m = 15) by lia.
    repeat (destruct Hcases as [-> | Hcases]; [reflexivity |]).
    subst m. reflexivity. }
  split; [exact Hm |]. split; [exact Hall |].
  rewrite Hall. repeat split; intros ->; reflexivity.
Qed.

(** C6.  [GetSemanticName()] is total: each of the eight named values of
    the sixteen-bit type member, 0 to 6 and 8, has its own tag, and every
    other value, 7 among them, has the tag "out.unk". *)
Theorem GetSemanticName_total (r : t) :
  0 <= value type r < 2 ^ 16 /\
  GetSemanticName r = semantic_tag (value type r) /\
  (value type r = 7 -> GetSemanticName r = "out.unk"%string) /\
  (~ In (value type r) [0; 1; 2; 3; 4; 5; 6; 8] ->
   GetSemanticName r = "out.unk"%string).
Proof.
  assert (Hk : 0 <= value type r < 2 ^ 16).
  { apply (value_range type r). cbn [In]. tauto. }
  assert (Hall : GetSemanticName r = semantic_tag (value type r)).
  { unfold GetSemanticName, semantic_tag, semantic_names.
    generalize (value type r). intros k.
    unfold POSITION, QUATERNION, COLOR, TEXCOORD0, TEXCOORD0W, TEXCOORD1,
      TEXCOORD2, VIEW.
    cbn [list_to_map foldr fst snd uncurry].
    repeat match goal with
           | |- context [k =? ?n] =>
               destruct (Z.eqb_spec k n) as [-> | ?]; [reflexivity |]
           end.
    rewrite !lookup_insert_ne by congruence.
    rewrite lookup_empty. reflexivity. }
  split; [exact Hk |]. split; [exact Hall |].
  rewrite Hall. split.
  - intros ->. reflexivity.
  - intros Hnot. unfold semantic_tag.
    repeat match goal with
           | |- context [?k =? ?n] =>
               destruct (Z.eqb_spec k n) as [Heq | ?];
               [exfalso; apply Hnot; rewrite Heq; cbn [In]; tauto |]
           end.
    reflexivity.
Qed.

End OutputRegisterInfoFacts.

(** ** Properties of the uniform-table entry *)

Module UniformInfoFacts.
Import CInt CIntFacts BitField UniformInfo.

Lemma convert_uint32_t (x : Z) :
  0 <= x < 4294967296 -> convert uint32_t x = x.
Proof.
  intros Hx. apply convert_id; [reflexivity |].
  unfold in_range, min_value, max_value. cbn [signed width uint32_t].
  change (2 ^ 32) with 4294967296. lia.
Qed.

Lemma convert_int (x : Z) :
  - 2147483648 <= x < 2147483648 -> convert int x = x.
Proof.
  intros Hx. apply convert_id; [reflexivity |].
  unfold in_range, min_value, max_value. cbn [signed width int int32_t].
  change (2 ^ (32 - 1)) with 2147483648. lia.
Qed.

Lemma uint32_t_range (reg : Z) :
  in_range uint32_t reg -> 0 <= reg < 4294967296.
Proof.
  unfold in_range, min_value, max_value. cbn [signed width uint32_t].
  change (2 ^ 32) with 4294967296. lia.
Qed.

(** The comparisons of [GetType] compare the register number itself. *)
Lemma lt_uint32_t (reg k : Z) :
  0 <= reg < 4294967296 -> 0 <= k < 4294967296 ->
  lt (CV uint32_t reg) (CV int k) = (reg <? k).
Proof.
  intros Hr Hk. unfold lt. cbn [ty val].
  change (common uint32_t int) with uint32_t.
  rewrite !convert_uint32_t by assumption. reflexivity.
Qed.

Lemma ge_uint32_t (reg k : Z) :
  0 <= reg < 4294967296 -> 0 <= k < 4294967296 ->
  ge (CV uint32_t reg) (CV int k) = (k <=? reg).
Proof.
  intros Hr Hk. unfold ge. cbn [ty val].
  change (common uint32_t int) with uint32_t.
  rewrite !convert_uint32_t by assumption. reflexivity.
Qed.

(** The classifier, by plain comparisons. *)
Lemma GetType_spec (reg : Z) :
  in_range uint32_t reg ->
  GetType reg =
  if reg <? 0x10 then Input
  else if reg <? 0x70 then FloatUniform
  else if reg <? 0x74 then IntUniform
  else if (0x78 <=? reg) && (reg <? 0x88) then BoolUniform
  else Unknown.
Proof.
  intros Hr. apply uint32_t_range in Hr. unfold GetType.
  rewrite !lt_uint32_t, ge_uint32_t; [reflexivity | lia ..].
Qed.

(** The offset from the start of a class, as [GetIndex] computes it. *)
Lemma index_from (reg k : Z) :
  0 <= k <= reg -> reg < 2147483648 ->
  val (cast int (sub (CV uint32_t reg) (CV int k))) = reg - k.
Proof.
  intros Hk Hr. unfold cast, sub. cbn [ty val].
  change (common uint32_t int) with uint32_t.
  rewrite (convert_uint32_t reg), (convert_uint32_t k),
    (convert_uint32_t (reg - k)) by lia.
  apply convert_int. lia.
Qed.

(** C5.  The classifier splits the 32-bit register numbers into input
    [[0, 0x10)], float uniform [[0x10, 0x70)], integer uniform
    [[0x70, 0x74)], boolean uniform [[0x78, 0x88)] and unknown for the
    rest; the index is the offset from the start of the class and -1 for
    unknown.  The boundaries: 0x0F is an input, 0x10 float uniform 0, 0x6F
    float uniform 0x5F, 0x70 integer uniform 0, 0x77 unknown, 0x78 boolean
    uniform 0, 0x87 boolean uniform 0x0F, 0x88 unknown. *)
Theorem GetType_GetIndex_ranges (reg : Z) :
  in_range uint32_t reg ->
  (reg < 0x10 -> GetType reg = Input /\ GetIndex reg = reg) /\
  (0x10 <= reg < 0x70 ->
   GetType reg = FloatUniform /\ GetIndex reg = reg - 0x10) /\
  (0x70 <= reg < 0x74 ->
   GetType reg = IntUniform /\ GetIndex reg = reg - 0x70) /\
  (0x74 <= reg < 0x78 -> GetType reg = Unknown /\ GetIndex reg = -1) /\
  (0x78 <= reg < 0x88 ->
   GetType reg = BoolUniform /\ GetIndex reg = reg - 0x78) /\
  (0x88 <= reg -> GetType reg = Unknown /\ GetIndex reg = -1) /\
  GetType 0x0F = Input /\
  (GetType 0x10 = FloatUniform /\ GetIndex 0x10 = 0) /\
  (GetType 0x6F = FloatUniform /\ GetIndex 0x6F = 0x5F) /\
  (GetType 0x70 = IntUniform /\ GetIndex 0x70 = 0) /\
  GetType 0x77 = Unknown /\
  (GetType 0x78 = BoolUniform /\ GetIndex 0x78 = 0) /\
  (GetType 0x87 = BoolUniform /\ GetIndex 0x87 = 0x0F) /\
  GetType 0x88 = Unknown.
Proof.
  intros Hr. pose proof (GetType_spec reg Hr) as Ht.
  pose proof (uint32_t_range reg Hr) as Hreg.
  assert (Hclass :
    forall c, GetType reg = c ->
      GetIndex reg =
      match c with
      | Input => val (cast int (CV uint32_t reg))
      | FloatUniform => val (cast int (sub (CV uint32_t reg) (CV int 0x10)))
      | IntUniform => val (cast int (sub (CV uint32_t reg) (CV int 0x70)))
      | BoolUniform => val (cast int (sub (CV uint32_t reg) (CV int 0x78)))
      | Unknown => -1
      end).
  { intros c Hc. unfold GetIndex. rewrite Hc. reflexivity. }
  split; [| split; [| split; [| split; [| split; [| split]]]]].
  7: solve [vm_compute; repeat split; reflexivity].
  - intros H. destruct (Z.ltb_spec reg 0x10); [| lia].
    split; [exact Ht |]. rewrite (Hclass _ Ht).
    unfold cast. cbn [val]. apply convert_int. lia.
  - intros H. destruct (Z.ltb_spec reg 0x10); [lia |].
    destruct (Z.ltb_spec reg 0x70); [| lia].
    split; [exact Ht |]. rewrite (Hclass _ Ht). apply index_from; lia.
  - intros H. destruct (Z.ltb_spec reg 0x10); [lia |].
    destruct (Z.ltb_spec reg 0x70); [lia |].
    destruct (Z.ltb_spec reg 0x74); [| lia].
    split; [exact Ht |]. rewrite (Hclass _ Ht). apply index_from; lia.
  - intros H. destruct (Z.ltb_spec reg 0x10); [lia |].
    destruct (Z.ltb_spec reg 0x70); [lia |].
    destruct (Z.ltb_spec reg 0x74); [lia |].
    destruct (Z.leb_spec 0x78 reg); [lia |]. cbn [andb] in Ht.
    split; [exact Ht |]. rewrite (Hclass _ Ht). reflexivity.
  - intros H. destruct (Z.ltb_spec reg 0x10); [lia |].
    destruct (Z.ltb_spec reg 0x70); [lia |].
    destruct (Z.ltb_spec reg 0x74); [lia |].
    destruct (Z.leb_spec 0x78 reg); [| lia].
    destruct (Z.ltb_spec reg 0x88); [| lia]. cbn [andb] in Ht.
    split; [exact Ht |]. rewrite (Hclass _ Ht). apply index_from; lia.
  - intros H. destruct (Z.ltb_spec reg 0x10); [lia |].
    destruct (Z.ltb_spec reg 0x70); [lia |].
    destruct (Z.ltb_spec reg 0x74); [lia |].
    destruct (Z.leb_spec 0x78 reg); [| lia].
    destruct (Z.ltb_spec reg 0x88); [lia |]. cbn [andb] in Ht.
    split; [exact Ht |]. rewrite (Hclass _ Ht). reflexivity.
Qed.

Lemma GetType_GetIndex_ranges_witness :
  GetType 0x6F = FloatUniform /\ GetIndex 0x6F = 0x6F - 0x10.
Proof.
  assert (Hr : in_range uint32_t 0x6F) by (vm_compute; split; discriminate).
  destruct (GetType_GetIndex_ranges 0x6F Hr) as (_ & H & _).
  apply H. lia.
Defined.

End UniformInfoFacts.

(** ** The sizes of the headers *)

Module HeadersFacts.
Import CInt Headers.

(** C8.  Laid out without padding, the container header [DVLBHeader] takes
    8 bytes, the program header [DVLPHeader] 28 and the shader-variant
    header [DVLEHeader] 64, the sizes the static assertions of the file
    demand. *)
Theorem header_sizes :
  sizeof_packed DVLBHeader = 0x8 /\
  sizeof_packed DVLPHeader = 0x1C /\
  sizeof_packed DVLEHeader = 0x40.
Proof. repeat split. Qed.

End HeadersFacts.

(** ** Laws of [BitField] beyond the specification *)

Module BitFieldLaws.
Import CInt CIntFacts Bits BitField BitFieldFacts.

(** The bits [Assign] writes: those of the field, and in a storage type
    narrower than [int] every bit above the field as well. *)
Definition written (f : params) (i : Z) : bool :=
  (position f <=? i) &&
  (if width (StorageType f) <? 32 then true else i <? position f + bits f).

Lemma Assign_bits (f : params) (s v i : Z) :
  valid f = true -> 0 <= i < width (StorageType f) ->
  Z.testbit (Assign f s v) i =
  if written f i then Z.testbit v (i - position f) else Z.testbit s i.
Proof.
  intros Hvalid Hi. unfold written.
  destruct (Z.ltb_spec (width (StorageType f)) 32).
  - rewrite Assign_narrow_bits by assumption.
    rewrite andb_true_r. reflexivity.
  - rewrite Assign_wide_bits by assumption. reflexivity.
Qed.

Lemma storage_width_pos (f : params) :
  valid f = true -> 0 < width (StorageType f).
Proof. intros Hvalid. destruct (valid_inv f Hvalid) as (Hws & _). lia. Qed.

(** X1.  An unsigned field of any storage width, 8 and 16 bits included,
    reads back every value below [2 ^ bits] that is assigned to it,
    whatever the word held before. *)
Theorem unsigned_field_roundtrip (f : params) (s v : Z) :
  valid f = true -> signed (StorageType f) = false ->
  0 <= v < 2 ^ bits f ->
  Value f (Assign f s v) = v.
Proof.
  intros Hvalid Hu Hv. apply Assign_Value_roundtrip; [assumption | |].
  - unfold sign_known, numeric_limits_is_signed.
    unfold StorageType in Hu. rewrite Hu.
    destruct (is_enum (T f)); reflexivity.
  - unfold in_range, min_value, max_value, field_type. cbn [width signed].
    rewrite Hu. lia.
Qed.

Lemma unsigned_field_roundtrip_witness :
  Value (BF 3 5 (integer uint8_t)) (Assign (BF 3 5 (integer uint8_t)) 0xFF 21)
  = 21.
Proof.
  apply (unsigned_field_roundtrip (BF 3 5 (integer uint8_t)) 0xFF 21);
    [reflexivity | reflexivity | simpl; lia].
Defined.

(** X2.  A field of a signed integer type of any storage width reads back
    every value from [- 2 ^ (bits - 1)] to [2 ^ (bits - 1) - 1] that is
    assigned to it. *)
Theorem signed_field_roundtrip (f : params) (s v : Z) :
  valid f = true -> numeric_limits_is_signed (T f) = true ->
  - 2 ^ (bits f - 1) <= v < 2 ^ (bits f - 1) ->
  Value f (Assign f s v) = v.
Proof.
  intros Hvalid Hsigned Hv.
  destruct (signed_value_type f Hsigned) as (Hs & Hknown).
  apply Assign_Value_roundtrip; [assumption | assumption |].
  unfold in_range, min_value, max_value, field_type. cbn [width signed].
  rewrite Hs. lia.
Qed.

Lemma signed_field_roundtrip_witness :
  Value (BF 3 15 (integer int32_t))
    (Assign (BF 3 15 (integer int32_t)) 0x7FFFFFFF (-12345)) = -12345.
Proof.
  apply (signed_field_roundtrip (BF 3 15 (integer int32_t)) 0x7FFFFFFF (-12345));
    [reflexivity | reflexivity | simpl; lia].
Defined.

(** X3.  The last assignment wins: assigning twice to a field leaves the
    word the second assignment alone would leave. *)
Theorem Assign_last_write_wins (f : params) (s v1 v2 : Z) :
  valid f = true ->
  Assign f (Assign f s v1) v2 = Assign f s v2.
Proof.
  intros Hvalid. pose proof (storage_width_pos f Hvalid) as Hw.
  apply (in_range_bits_eq (StorageType f));
    try (apply Assign_in_range; assumption); [assumption |].
  intros i Hi. rewrite !Assign_bits by assumption.
  destruct (written f i); reflexivity.
Qed.

Lemma Assign_last_write_wins_witness :
  Assign (BF 8 8 (integer uint32_t))
    (Assign (BF 8 8 (integer uint32_t)) 0x12345678 0xAB) 0xCD
  = Assign (BF 8 8 (integer uint32_t)) 0x12345678 0xCD.
Proof.
  apply (Assign_last_write_wins (BF 8 8 (integer uint32_t)) 0x12345678 0xAB 0xCD).
  reflexivity.
Defined.

(** X4.  Writing a field's own value back changes nothing: for a word of
    the storage type, [Assign(Value())] leaves the word as it is. *)
Theorem Assign_own_value (f : params) (s : Z) :
  valid f = true -> sign_known (T f) = true ->
  in_range (StorageType f) s ->
  Assign f s (Value f s) = s.
Proof.
  intros Hvalid Hsign Hs. pose proof (storage_width_pos f Hvalid) as Hw.
  destruct (valid_inv f Hvalid) as (Hws & Hbs & Hp & Hb & Hpb).
  apply (in_range_bits_eq (StorageType f));
    [assumption | apply Assign_in_range; assumption | assumption |].
  intros i Hi. rewrite Assign_bits by assumption. unfold written.
  destruct (Z.leb_spec (position f) i); [| reflexivity].
  destruct (Z.ltb_spec (width (StorageType f)) 32); cbn [andb].
  - rewrite Value_narrow by assumption. rewrite testbit_shiftr'.
    destruct (Z.leb_spec 0 (i - position f)); [| lia].
    simpl. f_equal. lia.
  - destruct (Z.ltb_spec i (position f + bits f)); [| reflexivity].
    rewrite Value_wide by assumption. unfold field_type.
    rewrite testbit_convert' by (cbn [width]; lia). cbn [width signed].
    destruct (Z.ltb_spec (i - position f) (bits f)); [| lia].
    rewrite testbit_shiftr'.
    destruct (Z.leb_spec 0 (i - position f)); [| lia].
    simpl. f_equal. lia.
Qed.

Lemma Assign_own_value_witness :
  Assign (BF 4 8 (integer int16_t)) (-12345)
    (Value (BF 4 8 (integer int16_t)) (-12345)) = -12345.
Proof.
  apply (Assign_own_value (BF 4 8 (integer int16_t)) (-12345));
    [reflexivity | reflexivity | vm_compute; split; discriminate].
Defined.

(** X5.  In a storage type at least as wide as [int], assignments to two
    views of one word whose bit ranges are disjoint commute. *)
Theorem Assign_disjoint_commute (f g : params) (s a b : Z) :
  valid f = true -> valid g = true ->
  StorageType g = StorageType f -> 32 <= width (StorageType f) ->
  disjoint f g = true ->
  Assign f (Assign g s a) b = Assign g (Assign f s b) a.
Proof.
  intros Hf Hg Hty Hwide Hdis.
  pose proof (storage_width_pos f Hf) as Hw.
  apply (in_range_bits_eq (StorageType f)); [assumption | | |].
  - apply Assign_in_range. assumption.
  - rewrite <- Hty. apply Assign_in_range. assumption.
  - intros i Hi.
    rewrite (Assign_wide_bits f), (Assign_wide_bits g), (Assign_wide_bits g),
      (Assign_wide_bits f) by (rewrite ?Hty; assumption).
    unfold disjoint in Hdis. unfold in_field.
    destruct (Z.leb_spec (position f) i),
      (Z.ltb_spec i (position f + bits f)),
      (Z.leb_spec (position g) i),
      (Z.ltb_spec i (position g + bits g)); cbn [andb]; try reflexivity.
    apply orb_prop in Hdis. destruct Hdis as [H' | H']; lia.
Qed.

Lemma Assign_disjoint_commute_witness :
  Assign (BF 0 7 (integer uint32_t))
    (Assign (BF 7 8 (integer uint32_t)) 0xDEADBEEF 0x5A) 0x33
  = Assign (BF 7 8 (integer uint32_t))
      (Assign (BF 0 7 (integer uint32_t)) 0xDEADBEEF 0x33) 0x5A.
Proof.
  apply (Assign_disjoint_commute (BF 0 7 (integer uint32_t))
           (BF 7 8 (integer uint32_t)) 0xDEADBEEF 0x5A 0x33);
    [reflexivity | reflexivity | reflexivity | simpl; lia | reflexivity].
Defined.

(** X6.  In a storage type at least as wide as [int], [Value()] lies in
    the range of a number of [bits] bits of the storage type's signedness:
    from 0 to [2 ^ bits - 1] for an unsigned type, from [- 2 ^ (bits - 1)]
    to [2 ^ (bits - 1) - 1] for a signed integer type. *)
Theorem Value_wide_range (f : params) (s : Z) :
  valid f = true -> 32 <= width (StorageType f) ->
  sign_known (T f) = true ->
  in_range (field_type f) (Value f s).
Proof.
  intros Hvalid Hwide Hsign.
  destruct (valid_inv f Hvalid) as (_ & _ & _ & Hb & _).
  rewrite Value_wide by assumption.
  apply convert_in_range. unfold field_type. cbn [width]. lia.
Qed.

Lemma Value_wide_range_witness :
  - 2 ^ 14 <= Value (BF 3 15 (integer int32_t)) 0xDEADBEEF <= 2 ^ 14 - 1.
Proof.
  exact (Value_wide_range (BF 3 15 (integer int32_t)) 0xDEADBEEF
           eq_refl ltac:(simpl; lia) eq_refl).
Defined.





Local Arguments convert : simpl never.

(** X9.  A field whose type is an enumeration over a signed type at least
    as wide as [int] is read on the unsigned path: [Value()] zero-extends
    the field, so a negative enumerator never reads back, unless the field
    ends at the top bit of the word, where the arithmetic right shift of
    the signed word sign-extends it. *)
Theorem Value_wide_signed_enum (f : params) (s : Z) :
  valid f = true -> 32 <= width (StorageType f) ->
  is_enum (T f) = true -> signed (StorageType f) = true ->
  Value f s =
  convert (IType (bits f) (position f + bits f =? width (StorageType f)))
    (Z.shiftr s (position f)).
Proof.
  intros Hvalid Hwide Henum Hsg.
  pose proof (GetMask_wide_bits f) as HM.
  specialize (fun j => HM j Hvalid Hwide).
  unfold Value, numeric_limits_is_signed. rewrite Henum.
  set (M := GetMask f) in *.
  assert (HMty : ty M = StorageType f) by reflexivity.
  clearbody M. destruct M as [tM m]. cbn [ty val] in *. subst tM.
  destruct (valid_inv f Hvalid) as (Hws & Hbs & Hp & Hb & Hpb).
  destruct f as [p b [[w sg] en]].
  unfold StorageType, in_field in *.
  cbn [T underlying position bits width signed] in *. subst sg.
  unfold cast, band, shr. cbn [ty val].
  repeat (rewrite ?common_same, ?(promote_wide (IType w true) Hwide);
          cbn [ty val]).
  apply Z.bits_inj'. intros i Hi.
  rewrite_bits.
  destruct (Z.leb_spec 0 i); [| lia]. cbn [andb].
  destruct (Z.eqb_spec (p + b) w) as [Htop | Hlow]; cbn [andb];
    split_tests; use_bits HM m; split_tests; merge_indices; finish_bits.
Qed.

Lemma Value_wide_signed_enum_witness :
  Value (BF 4 4 (enumeration int32_t)) (-1) = 15 /\
  Value (BF 28 4 (enumeration int32_t)) (-1) = -1.
Proof.
  split.
  - exact (Value_wide_signed_enum (BF 4 4 (enumeration int32_t)) (-1)
             eq_refl ltac:(simpl; lia) eq_refl eq_refl).
  - exact (Value_wide_signed_enum (BF 28 4 (enumeration int32_t)) (-1)
             eq_refl ltac:(simpl; lia) eq_refl eq_refl).
Defined.

End BitFieldLaws.

(** ** Laws of the output-register entry *)

Module OutputRegisterInfoLaws.
Import CInt CIntFacts Bits BitField BitFieldFacts.
Import OutputRegisterInfo OutputRegisterInfoFacts.

Ltac member := cbn [In]; auto 10.

Lemma member_component_mask :
  In component_mask [hex; type; id; component_mask; descriptor].
Proof. member. Qed.

(** The value of a member after an assignment to a member disjoint from
    it. *)
Lemma value_assign_disjoint (m n : params) (v : Z) (r : t) :
  In m [hex; type; id; component_mask; descriptor] ->
  In n [hex; type; id; component_mask; descriptor] ->
  disjoint m n = true ->
  value n (assign m v r) = value n r.
Proof.
  intros Hm Hn Hdis. apply Z.bits_inj'. intros i Hi.
  rewrite !value_bits by assumption.
  destruct (member_valid n Hn) as (Hvn & _).
  destruct (valid_inv n Hvn) as (Hws & Hbs & Hp & Hb & Hpb).
  assert (Hw : width (StorageType n) = 64).
  { destruct (member_valid n Hn) as (_ & -> & _). reflexivity. }
  destruct (Z.ltb_spec i (bits n)); [| reflexivity]. cbn [andb].
  rewrite assign_bits by (assumption || lia).
  unfold disjoint in Hdis. unfold in_field.
  destruct (Z.leb_spec (position m) (i + position n)),
    (Z.ltb_spec (i + position n) (position m + bits m)); try reflexivity.
  apply orb_prop in Hdis. destruct Hdis as [H' | H']; lia.
Qed.

(** The value of a member after an assignment to it. *)
Lemma value_assign_same (m : params) (v : Z) (r : t) :
  In m [hex; type; id; component_mask; descriptor] ->
  value m (assign m v r) = v mod 2 ^ bits m.
Proof.
  intros Hm. apply Z.bits_inj'. intros i Hi.
  destruct (member_valid m Hm) as (Hvm & Hty & _).
  destruct (valid_inv m Hvm) as (Hws & Hbs & Hp & Hb & Hpb).
  rewrite Hty in Hpb. cbn [width uint64_t] in Hpb.
  rewrite value_bits, Z.testbit_mod_pow2 by (assumption || lia).
  destruct (Z.ltb_spec i (bits m)); [| reflexivity]. cbn [andb].
  rewrite assign_bits by (assumption || lia).
  unfold in_field.
  destruct (Z.leb_spec (position m) (i + position m)),
    (Z.ltb_spec (i + position m) (position m + bits m)); try lia.
  cbn [andb]. f_equal. lia.
Qed.

Lemma GetSemanticName_tag (r : t) :
  GetSemanticName r = semantic_tag (value type r).
Proof.
  unfold GetSemanticName, semantic_tag, semantic_names.
  generalize (value type r). intros k.
  unfold POSITION, QUATERNION, COLOR, TEXCOORD0, TEXCOORD0W, TEXCOORD1,
    TEXCOORD2, VIEW.
  cbn [list_to_map foldr fst snd uncurry].
  repeat match goal with
         | |- context [k =? ?n] =>
             destruct (Z.eqb_spec k n) as [-> | ?]; [reflexivity |]
         end.
  rewrite !lookup_insert_ne by congruence.
  rewrite lookup_empty. reflexivity.
Qed.

Lemma letters_cases (m : Z) (P : Z -> Prop) :
  0 <= m < 16 ->
  P 0 -> P 1 -> P 2 -> P 3 -> P 4 -> P 5 -> P 6 -> P 7 ->
  P 8 -> P 9 -> P 10 -> P 11 -> P 12 -> P 13 -> P 14 -> P 15 -> P m.
Proof.
  intros Hm.
  assert (Hcases : m = 0 \/ m = 1 \/ m = 2 \/ m = 3 \/ m = 4 \/ m = 5 \/
                   m = 6 \/ m = 7 \/ m = 8 \/ m = 9 \/ m = 10 \/ m = 11 \/
                   m = 12 \/ m = 13 \/ m = 14 \/ m = 15) by lia.
  intros.
  repeat (destruct Hcases as [-> | Hcases]; [assumption |]).
  subst m. assumption.
Qed.

Lemma GetMask_is_letters (r : t) :
  GetMask r = mask_letters (value component_mask r).
Proof.
  pose proof (value_range component_mask r
                member_component_mask) as Hm.
  change (2 ^ bits component_mask) with 16 in Hm.
  unfold GetMask. generalize dependent (value component_mask r).
  intros m Hm. apply (letters_cases m); [exact Hm | reflexivity ..].
Qed.

(** X10.  The constructor leaves every member at zero, whatever the
    memory held: the type is [POSITION], the component mask is empty and
    the semantic name is "out.pos". *)
Theorem construct_members (memory : Z) :
  value hex (construct memory) = 0 /\
  value type (construct memory) = POSITION /\
  value id (construct memory) = 0 /\
  value component_mask (construct memory) = 0 /\
  value descriptor (construct memory) = 0 /\
  GetMask (construct memory) = EmptyString /\
  GetSemanticName (construct memory) = "out.pos"%string.
Proof. rewrite construct_zero. vm_compute. repeat split. Qed.

(** X11.  In every reachable state the 64-bit word is made of its three
    members [type], [id] and [descriptor], which cover it without gap or
    overlap, and [hex] reads the whole word. *)
Theorem word_of_members (r : t) :
  reachable r ->
  storage r =
    value type r + 2 ^ 16 * value id r + 2 ^ 32 * value descriptor r /\
  value hex r = storage r.
Proof.
  intros Hr. pose proof (reachable_in_range r Hr) as Hw.
  unfold in_range, min_value, max_value in Hw. cbn [signed width uint64_t] in Hw.
  unfold value.
  rewrite !Value_wide by (reflexivity || (simpl; lia)).
  unfold field_type, convert.
  cbn [bits position signed width StorageType T underlying hex type id
       descriptor integer enumeration uint64_t].
  rewrite !Z.shiftr_div_pow2 by lia.
  change (2 ^ 0) with 1. rewrite Z.div_1_r.
  change (2 ^ 16) with 65536 in *. change (2 ^ 32) with 4294967296 in *.
  change (2 ^ 64) with 18446744073709551616 in *.
  split.
  - Z.div_mod_to_equations. lia.
  - apply Z.mod_small. lia.
Qed.

Lemma word_of_members_witness :
  0x0123456789ABCDEF =
    value type (Word 0x0123456789ABCDEF)
    + 2 ^ 16 * value id (Word 0x0123456789ABCDEF)
    + 2 ^ 32 * value descriptor (Word 0x0123456789ABCDEF).
Proof.
  assert (Hr : reachable (Word 0x0123456789ABCDEF)).
  { apply reach_load. vm_compute. split; discriminate. }
  exact (proj1 (word_of_members _ Hr)).
Defined.

(** X12.  The members [type], [id] and [descriptor] are independent: an
    assignment to one of them leaves the values of the two others, and an
    assignment to [type] or [id] leaves the component mask as well. *)
Theorem members_independent (r : t) (v : Z) :
  (value id (assign type v r) = value id r /\
   value descriptor (assign type v r) = value descriptor r /\
   value component_mask (assign type v r) = value component_mask r) /\
  (value type (assign id v r) = value type r /\
   value descriptor (assign id v r) = value descriptor r /\
   value component_mask (assign id v r) = value component_mask r) /\
  (value type (assign descriptor v r) = value type r /\
   value id (assign descriptor v r) = value id r) /\
  (value type (assign component_mask v r) = value type r /\
   value id (assign component_mask v r) = value id r).
Proof.
  repeat split;
    apply value_assign_disjoint;
    solve [member | reflexivity].
Qed.

(** X13.  A member keeps the low bits of what is assigned to it, as many
    as it is wide, whatever the word held before; [hex] replaces the whole
    word. *)
Theorem member_reads_assigned (r : t) (v : Z) :
  value type (assign type v r) = v mod 2 ^ 16 /\
  value id (assign id v r) = v mod 2 ^ 16 /\
  value component_mask (assign component_mask v r) = v mod 2 ^ 4 /\
  value descriptor (assign descriptor v r) = v mod 2 ^ 32 /\
  value hex (assign hex v r) = v mod 2 ^ 64.
Proof.
  repeat split;
    apply value_assign_same; member.
Qed.

(** X14.  The semantic name follows the type member alone: after
    [type.Assign(k)] it is the tag of the low sixteen bits of [k], and
    assignments to [id], [component_mask] and [descriptor] leave it. *)
Theorem GetSemanticName_follows_type (r : t) (k v : Z) :
  GetSemanticName (assign type k r) = semantic_tag (k mod 2 ^ 16) /\
  GetSemanticName (assign id v r) = GetSemanticName r /\
  GetSemanticName (assign component_mask v r) = GetSemanticName r /\
  GetSemanticName (assign descriptor v r) = GetSemanticName r.
Proof.
  rewrite !GetSemanticName_tag.
  rewrite (value_assign_same type) by member.
  rewrite !value_assign_disjoint
    by solve [member | reflexivity].
  repeat split.
Qed.

(** X15.  The mask string follows the component mask alone: after
    [component_mask.Assign(m)] it spells the low four bits of [m],
    assignments to [type] and [id] leave it, and after
    [descriptor.Assign(d)] it spells the low four bits of [d]. *)
Theorem GetMask_follows_component_mask (r : t) (m v d : Z) :
  GetMask (assign component_mask m r) = mask_letters (m mod 2 ^ 4) /\
  GetMask (assign type v r) = GetMask r /\
  GetMask (assign id v r) = GetMask r /\
  GetMask (assign descriptor d r) = mask_letters (d mod 2 ^ 4).
Proof.
  rewrite !GetMask_is_letters.
  rewrite (value_assign_same component_mask) by member.
  rewrite !(value_assign_disjoint _ component_mask)
    by solve [member | reflexivity].
  repeat split.
  f_equal. apply Z.bits_inj'. intros i Hi.
  rewrite value_bits, Z.testbit_mod_pow2 by (member || lia).
  change (bits component_mask) with 4. change (position component_mask) with 32.
  destruct (Z.ltb_spec i 4); [| reflexivity]. cbn [andb].
  rewrite assign_bits by (member || lia).
  unfold in_field. change (position descriptor) with 32.
  change (bits descriptor) with 32.
  destruct (Z.leb_spec 32 (i + 32)), (Z.ltb_spec (i + 32) (32 + 32)); try lia.
  cbn [andb]. f_equal. lia.
Qed.

(** X16.  The mask string determines the component mask: two entries
    have the same string exactly when they have the same component mask,
    and the string has as many letters as the mask has bits set, four at
    most. *)
Theorem GetMask_injective (r1 r2 : t) :
  (GetMask r1 = GetMask r2 <->
   value component_mask r1 = value component_mask r2) /\
  (String.length (GetMask r1) <= 4)%nat.
Proof.
  rewrite !GetMask_is_letters.
  pose proof (value_range component_mask r1 member_component_mask) as H1.
  pose proof (value_range component_mask r2 member_component_mask) as H2.
  change (2 ^ bits component_mask) with 16 in H1, H2.
  generalize dependent (value component_mask r2).
  generalize dependent (value component_mask r1).
  intros m1 H1 m2 H2. split.
  - split; [| intros ->; reflexivity].
    revert m2 H2.
    apply (letters_cases m1); [exact H1 | ..];
      intros m2 H2; apply (letters_cases m2); try exact H2;
      vm_compute; intros H; first [reflexivity | discriminate H].
  - apply (letters_cases m1); [exact H1 | ..]; vm_compute; lia.
Qed.

End OutputRegisterInfoLaws.

(** ** Laws of the constant and uniform table entries *)

Module TableEntryLaws.
Import CInt CIntFacts Bits BitField BitFieldFacts.

(** The bits of the value of an unsigned field of a wide storage type. *)
Lemma wide_value_bits (f : params) (s i : Z) :
  valid f = true -> 32 <= width (StorageType f) ->
  signed (StorageType f) = false -> 0 <= i ->
  Z.testbit (Value f s) i =
  (i <? bits f) && Z.testbit s (i + position f).
Proof.
  intros Hvalid Hwide Hu Hi.
  destruct (valid_inv f Hvalid) as (_ & _ & _ & Hb & _).
  assert (Hsign : sign_known (T f) = true).
  { unfold sign_known, numeric_limits_is_signed.
    unfold StorageType in Hu. rewrite Hu.
    destruct (is_enum (T f)); reflexivity. }
  rewrite Value_wide by assumption. unfold field_type.
  rewrite testbit_convert' by (cbn [width]; lia). cbn [width signed].
  rewrite Hu, testbit_shiftr'.
  destruct (Z.ltb_spec i (bits f)), (Z.leb_spec 0 i); try lia; reflexivity.
Qed.

Section ConstantInfoLaws.
Import ConstantInfo.

Lemma first_word_other (m n : params) (v : Z) (c : t) :
  (m = type /\ n = regid) \/ (m = regid /\ n = type) ->
  value_first n (assign_first m v c) = value_first n c.
Proof.
  intros Hmn. unfold value_first, assign_first. cbn [full_first_word].
  apply Z.bits_inj'. intros i Hi.
  destruct Hmn as [[-> ->] | [-> ->]];
    rewrite !wide_value_bits by (reflexivity || (simpl; lia) || assumption);
    cbn [bits position type regid];
    match goal with
    | |- (i <? ?k) && _ = _ =>
        destruct (Z.ltb_spec i k); [| reflexivity]
    end; cbn [andb];
    rewrite Assign_wide_bits by (reflexivity || (simpl; lia));
    unfold in_field; cbn [bits position type regid];
    split_tests; try lia; reflexivity.
Qed.

Lemma first_word_same (m : params) (v : Z) (c : t) :
  m = type \/ m = regid ->
  value_first m (assign_first m v c) = v mod 2 ^ bits m.
Proof.
  intros Hm. unfold value_first, assign_first. cbn [full_first_word].
  apply Z.bits_inj'. intros i Hi.
  destruct Hm as [-> | ->];
    rewrite wide_value_bits, Z.testbit_mod_pow2
      by (reflexivity || (simpl; lia) || assumption);
    cbn [bits position type regid];
    match goal with
    | |- (i <? ?k) && _ = _ =>
        destruct (Z.ltb_spec i k); [| reflexivity]
    end; cbn [andb];
    rewrite Assign_wide_bits by (reflexivity || (simpl; lia));
    unfold in_field; cbn [bits position type regid];
    split_tests; try lia; cbn [andb]; f_equal; lia.
Qed.

(** X17.  The two fields of the first word of a constant-table entry are
    independent: [type] keeps the low two bits and [regid] the low eight
    bits of what is assigned, and an assignment to one leaves the other. *)
Theorem ConstantInfo_first_word (c : t) (k v : Z) :
  value_first type (assign_first type k c) = k mod 2 ^ 2 /\
  value_first regid (assign_first regid v c) = v mod 2 ^ 8 /\
  value_first regid (assign_first type k c) = value_first regid c /\
  value_first type (assign_first regid v c) = value_first type c.
Proof.
  repeat split.
  - apply (first_word_same type). tauto.
  - apply (first_word_same regid). tauto.
  - apply first_word_other. tauto.
  - apply first_word_other. tauto.
Qed.

(** X18.  The flag [b] is bit 0 of the first value word: assigning it
    changes that bit of [f.x] and no other, and leaves the first word of
    the entry and the three other value words. *)
Theorem ConstantInfo_flag (c : t) (w0 w1 w2 w3 v : Z) :
  value_hex c = [w0; w1; w2; w3] -> in_range uint32_t w0 ->
  value_b (assign_b v c) = v mod 2 /\
  (forall i, 0 < i -> Z.testbit (f_x (assign_b v c)) i = Z.testbit (f_x c) i) /\
  tl (value_hex (assign_b v c)) = [w1; w2; w3] /\
  full_first_word (assign_b v c) = full_first_word c.
Proof.
  intros Hhex Hw0. unfold value_b, assign_b, f_x. rewrite Hhex.
  cbn [value_hex full_first_word nth tl].
  repeat split.
  - apply Z.bits_inj'. intros i Hi.
    rewrite wide_value_bits by (reflexivity || (simpl; lia) || assumption).
    change (2) with (2 ^ 1) at 1. rewrite Z.testbit_mod_pow2 by lia.
    cbn [bits position b].
    destruct (Z.ltb_spec i 1); [| reflexivity]. cbn [andb].
    rewrite Assign_wide_bits by (reflexivity || (simpl; lia)).
    unfold in_field. cbn [bits position b].
    split_tests; try lia. cbn [andb]. f_equal. lia.
  - intros i Hi.
    destruct (Z.ltb_spec i 32).
    + rewrite Assign_wide_bits by (reflexivity || (simpl; lia)).
      unfold in_field. cbn [bits position b].
      split_tests; try lia; reflexivity.
    + pose proof (Assign_in_range b w0 v eq_refl) as HA.
      rewrite (storage_high_bits uint32_t _ eq_refl HA) by (simpl; lia).
      rewrite (storage_high_bits uint32_t _ eq_refl Hw0 i) by (simpl; lia).
      reflexivity.
Qed.

Lemma ConstantInfo_flag_witness :
  value_b (assign_b 1 construct) = 1 /\
  f_x (assign_b 1 construct) = 1.
Proof.
  destruct (ConstantInfo_flag construct 0 0 0 0 1 eq_refl
              ltac:(vm_compute; split; discriminate)) as (H1 & _).
  split; [exact H1 | reflexivity].
Defined.

End ConstantInfoLaws.

End TableEntryLaws.

(** ** Laws of the uniform-table entry *)

Module UniformInfoLaws.
Import CInt CIntFacts Bits BitField BitFieldFacts UniformInfo UniformInfoFacts.

(** The number of registers of a class. *)
Definition class_size (c : RegisterType) : Z :=
  match c with
  | Input => 0x10
  | FloatUniform => 0x60
  | IntUniform => 0x4
  | BoolUniform => 0x10
  | Unknown => 0
  end.

(** X19.  The index of a register is -1 exactly when its class is
    unknown; otherwise it is a valid index into its class: below 16 for
    an input, below 96 for a float uniform, below 4 for an integer
    uniform and below 16 for a boolean uniform. *)
Theorem GetIndex_within_class (reg : Z) :
  in_range uint32_t reg ->
  (GetIndex reg = -1 <-> GetType reg = Unknown) /\
  (GetType reg <> Unknown ->
   0 <= GetIndex reg < class_size (GetType reg)).
Proof.
  intros Hr. pose proof (GetType_spec reg Hr) as Ht.
  pose proof (uint32_t_range reg Hr) as Hreg.
  assert (Hidx :
    match GetType reg with
    | Unknown => GetIndex reg = -1
    | c => 0 <= GetIndex reg < class_size c
    end).
  { unfold GetIndex. rewrite Ht.
    destruct (Z.ltb_spec reg 0x10).
    - unfold cast. cbn [val class_size]. rewrite convert_int by lia. lia.
    - destruct (Z.ltb_spec reg 0x70).
      + rewrite index_from by lia. cbn [class_size]. lia.
      + destruct (Z.ltb_spec reg 0x74).
        * rewrite index_from by lia. cbn [class_size]. lia.
        * destruct (Z.leb_spec 0x78 reg), (Z.ltb_spec reg 0x88);
            cbn [andb]; try reflexivity.
          rewrite index_from by lia. cbn [class_size]. lia. }
  destruct (GetType reg); split;
    try (split; [intros H; lia | intros H; discriminate H]);
    try (intros _; exact Hidx);
    try (split; [reflexivity || (intros _; reflexivity) | intros _; exact Hidx]).
  intros H. exfalso. apply H. reflexivity.
Qed.

Lemma GetIndex_within_class_witness :
  0 <= GetIndex 0x6F < class_size (GetType 0x6F).
Proof.
  assert (Hr : in_range uint32_t 0x6F) by (vm_compute; split; discriminate).
  apply (proj2 (GetIndex_within_class 0x6F Hr)).
  vm_compute. discriminate.
Defined.

(** X20.  The start register of an entry is the low half of its word and
    the end register is the high half of its own word: the helpers
    classify those sixteen bits and nothing else of the words. *)
Theorem register_range_classified (b : Basic) :
  GetStartType b = GetType (reg_start_storage b mod 2 ^ 16) /\
  GetStartIndex b = GetIndex (reg_start_storage b mod 2 ^ 16) /\
  GetEndType b = GetType ((reg_end_storage b / 2 ^ 16) mod 2 ^ 16) /\
  GetEndIndex b = GetIndex ((reg_end_storage b / 2 ^ 16) mod 2 ^ 16).
Proof.
  assert (Hs : forall s, Value reg_start s = s mod 2 ^ 16).
  { intros s. rewrite Value_wide by (reflexivity || (simpl; lia)).
    unfold field_type, convert. cbn [signed width bits position reg_start
      StorageType T underlying integer uint32_t].
    rewrite Z.shiftr_0_r. reflexivity. }
  assert (He : forall s, Value reg_end s = (s / 2 ^ 16) mod 2 ^ 16).
  { intros s. rewrite Value_wide by (reflexivity || (simpl; lia)).
    unfold field_type, convert. cbn [signed width bits position reg_end
      StorageType T underlying integer uint32_t].
    rewrite Z.shiftr_div_pow2 by lia. reflexivity. }
  unfold GetStartType, GetStartIndex, GetEndType, GetEndIndex.
  rewrite Hs, He. repeat split.
Qed.

(** X21.  [Initialize()] resets the entry whatever it held: the symbol
    offset is 0 and both ends of the register range are input register
    0.  It clears the two sixteen-bit fields only: the other half of each
    of the two words is kept. *)
Theorem Initialize_resets (b : Basic) :
  symbol_offset (Initialize b) = 0 /\
  GetStartType (Initialize b) = Input /\ GetStartIndex (Initialize b) = 0 /\
  GetEndType (Initialize b) = Input /\ GetEndIndex (Initialize b) = 0 /\
  (forall i, 16 <= i < 32 ->
     Z.testbit (reg_start_storage (Initialize b)) i
     = Z.testbit (reg_start_storage b) i) /\
  (forall i, 0 <= i < 16 ->
     Z.testbit (reg_end_storage (Initialize b)) i
     = Z.testbit (reg_end_storage b) i).
Proof.
  assert (Hs : Value reg_start (Assign reg_start (reg_start_storage b) 0) = 0).
  { apply Assign_Value_roundtrip; try reflexivity.
    vm_compute. split; discriminate. }
  assert (He : Value reg_end (Assign reg_end (reg_end_storage b) 0) = 0).
  { apply Assign_Value_roundtrip; try reflexivity.
    vm_compute. split; discriminate. }
  unfold GetStartType, GetStartIndex, GetEndType, GetEndIndex, Initialize.
  cbn [symbol_offset reg_start_storage reg_end_storage].
  rewrite Hs, He.
  split; [reflexivity |]. split; [reflexivity |]. split; [reflexivity |].
  split; [reflexivity |]. split; [reflexivity |]. split.
  - intros i Hi. rewrite Assign_wide_bits by (reflexivity || (simpl; lia)).
    unfold in_field. cbn [bits position reg_start].
    split_tests; try lia; reflexivity.
  - intros i Hi. rewrite Assign_wide_bits by (reflexivity || (simpl; lia)).
    unfold in_field. cbn [bits position reg_end].
    split_tests; try lia; reflexivity.
Qed.

End UniformInfoLaws.

(** ** The layout of the records *)

Module LayoutLaws.
Import CInt Headers Layout.

(** X22.  The sizes of the table entries under [#pragma pack(1)]: a
    constant entry takes 20 bytes, a label entry 16, an output-register
    entry 8.  The basic part of a uniform entry takes 12: the two register
    fields are members of a structure, so each has a word of its own, the
    start at offset 4 and the end at offset 8. *)
Theorem table_entry_sizes :
  size ConstantInfo_layout = 20 /\
  size LabelInfo_layout = 16 /\
  size OutputRegisterInfo_layout = 8 /\
  size UniformInfoBasic_layout = 12 /\
  offsets_from 4 [bit_field UniformInfo.reg_start;
                  bit_field UniformInfo.reg_end] = [4; 8].
Proof. repeat split. Qed.


(** X24.  The magic words are their tags: the bytes of each word, least
    significant first, spell "DVLB", "DVLP" and "DVLE". *)
Theorem magic_words_spell_tags :
  tag_of DVLB_MAGIC_WORD = "DVLB"%string /\
  tag_of DVLP_MAGIC_WORD = "DVLP"%string /\
  tag_of DVLE_MAGIC_WORD = "DVLE"%string.
Proof. repeat split. Qed.

End LayoutLaws.

(** ** Instances of the general laws *)

Module BitFieldExamples.
Import CInt BitField BitFieldFacts.

Lemma Assign_wide_frame_witness :
  Z.testbit (Assign (BF 7 8 (integer uint32_t)) 0xDEADBEEF 0) 31
  = Z.testbit 0xDEADBEEF 31.
Proof.
  apply (Assign_wide_frame (BF 7 8 (integer uint32_t)) 0xDEADBEEF 0 31);
    [reflexivity | simpl; lia | simpl; lia | reflexivity].
Defined.


Lemma Assign_Value_wide_truncates_witness :
  Value (BF 16 8 (integer uint32_t))
    (Assign (BF 16 8 (integer uint32_t)) 0 0x1234) = 0x34.
Proof.
  exact (Assign_Value_wide_truncates (BF 16 8 (integer uint32_t)) 0 0x1234
           eq_refl ltac:(simpl; lia) eq_refl).
Defined.

Lemma GetMask_wide_witness :
  convert uint32_t (val (GetMask (BF 3 15 (integer int32_t)))) = 0x3FFF8.
Proof.
  exact (GetMask_wide (BF 3 15 (integer int32_t)) eq_refl ltac:(simpl; lia)).
Defined.

Lemma GetMask_narrow_witness :
  convert uint16_t (val (GetMask (BF 4 4 (integer int16_t)))) = 0xFFF0.
Proof.
  exact (GetMask_narrow (BF 4 4 (integer int16_t)) eq_refl ltac:(simpl; lia)).
Defined.

Lemma Value_sign_extends_witness :
  Value (BF 4 4 (integer int32_t)) 0x80 = -8 /\
  Value (BF 4 4 (integer int32_t))
    (Assign (BF 4 4 (integer int32_t)) 0x12345678 (-8)) = -8.
Proof.
  destruct (Value_sign_extends (BF 4 4 (integer int32_t)) 0x80
              eq_refl eq_refl ltac:(simpl; lia)) as (_ & H2 & _).
  destruct (Value_sign_extends (BF 4 4 (integer int32_t)) 0x12345678
              eq_refl eq_refl ltac:(simpl; lia)) as (_ & _ & H3).
  exact (conj H2 H3).
Defined.

End BitFieldExamples.
